(** * redis-eventbus: a shallow embedding of [src/types.ts], [src/stream.ts]
    and [src/eventbus.ts], and the properties of the event bus.

    Conventions of the embedding.
    - A JavaScript number that the code treats as an integer (durations,
      counts, time stamps) is a [Z]; an optional property [x?: T] is an
      [option T], [None] standing for [undefined].
    - The Redis server, the EJSON codec, the clock, the UUID source and the
      bodies of the user's handlers are collaborators.  What they answer is
      an input of the operation that asks (a reply, the current time, a
      UUID); what the code tells them is recorded: every connection keeps
      the list [sent] of the commands issued on it, the bus keeps the list
      [calls] of the user functions it invoked.
    - A promise that resolves or rejects is a [Returned] or [Thrown]
      outcome next to the state the asynchronous function left behind. *)

From Stdlib Require Import Ascii.
From stdpp Require Import gmap strings list.

Local Open Scope Z_scope.
Local Open Scope string_scope.
Local Open Scope list_scope.

(** ** JavaScript helpers *)

(** [`${x}`] and [s + x] for an [x] that may be [undefined]. *)
Definition jsString (x : option string) : string := default "undefined" x.

(** Truthiness of an optional string: [undefined] and [''] are falsy. *)
Definition truthy (x : option string) : bool :=
  match x with
  | Some s => negb (String.eqb s "")
  | None => false
  end.

(** [x || d] on an optional string. *)
Definition orString (x : option string) (d : string) : string :=
  match x with
  | Some s => if String.eqb s "" then d else s
  | None => d
  end.

(** [x || d] on an optional integer: [undefined] and [0] are falsy. *)
Definition orNumber (x : option Z) (d : Z) : Z :=
  match x with
  | Some n => if Z.eqb n 0 then d else n
  | None => d
  end.

(** [x ?? d]. *)
Definition nullish {A} (x : option A) (d : A) : A := default d x.

(** [s.replace(/-/g, '')]. *)
Fixpoint removeDashes (s : string) : string :=
  match s with
  | EmptyString => EmptyString
  | String c s' =>
      if Ascii.eqb c "-"%char then removeDashes s' else String c (removeDashes s')
  end.

Fixpoint dropString (n : nat) (s : string) : string :=
  match n, s with
  | O, _ => s
  | S n', String _ s' => dropString n' s'
  | S _, EmptyString => EmptyString
  end.

(** [s.replace(pat, '')] for a string pattern: the first occurrence of [pat]
    is removed. *)
Fixpoint replaceFirst (pat s : string) : string :=
  if String.prefix pat s then dropString (String.length pat) s
  else match s with
       | EmptyString => EmptyString
       | String c s' => String c (replaceFirst pat s')
       end.

(** ** [src/types.ts] *)

Inductive EventBusRole := publisher | consumer | both.

Inductive EventMode := BROADCAST | UNICAST | ANYCAST.

#[global] Instance EventMode_eq_dec : EqDecision EventMode.
Proof. solve_decision. Defined.

(** The value of the enum member, as used in keys of [Record<EventMode, _>]. *)
Definition modeValue (m : EventMode) : string :=
  match m with
  | BROADCAST => "broadcast"
  | UNICAST => "unicast"
  | ANYCAST => "anycast"
  end.

(** [RedisOptions] of ioredis; only passed along. *)
Record RedisOptions := { host : string; port : Z }.

(** The user payload [T]; opaque to the bus. *)
Definition Data := string.

Module EventBusOptions.
Record t := {
  name : option string;
  redis : RedisOptions;
  messageRetention : option Z;
  streamTTL : option Z;
  onlyNew : option bool;
  debug : option bool;
  maxMessageCount : option Z;
  role : option EventBusRole
}.
End EventBusOptions.

(** [Required<EventBusOptions>] as the constructor fills it: [role] is the
    one property the constructor leaves as it was given. *)
Module Options.
Record t := {
  name : string;
  redis : RedisOptions;
  messageRetention : Z;
  streamTTL : Z;
  onlyNew : bool;
  debug : bool;
  maxMessageCount : Z;
  role : option EventBusRole
}.
End Options.

Module EventMessage.
Record t := {
  mode : option EventMode;
  target : option string;
  data : option Data
}.
End EventMessage.

Record ReceivedEventMessage := {
  mode : EventMode;
  target : option string;
  event : string;
  data : option Data;
  timestamp : Z;
  source : string
}.

(** An [EventHandler] is a function object; the table compares handlers by
    identity.  [UserFn f] is the caller's function number [f];
    [OnceWrapper w type f] is the closure [wrappedHandler] that the [w]-th
    call of [once] built around the caller's function [f] for topic [type]
    (the closure never leaves [once], so what it wraps is always a
    caller's function). *)
Inductive EventHandler :=
  | UserFn (fid : nat)
  | OnceWrapper (wid : nat) (type : string) (fid : nat).

#[global] Instance EventHandler_eq_dec : EqDecision EventHandler.
Proof. solve_decision. Defined.

(** The caller's function that runs when the handler is invoked. *)
Definition userFn (h : EventHandler) : nat :=
  match h with
  | UserFn f => f
  | OnceWrapper _ _ f => f
  end.

(** ** Effects *)

Inductive outcome := Returned | Thrown.

#[global] Instance outcome_eq_dec : EqDecision outcome.
Proof. solve_decision. Defined.

(** What a Redis call answers: a reply, or a rejection. *)
Inductive Result (A : Type) := Resolved (a : A) | Rejected.
Arguments Resolved {A} a.
Arguments Rejected {A}.

(** A value inside a reply of [XINFO]. *)
Inductive Reply := RStr (s : string) | RInt (n : Z).

#[global] Instance Reply_eq_dec : EqDecision Reply.
Proof. solve_decision. Defined.

(** The commands the code issues, with the arguments it passes.  An argument
    the code takes out of an untyped reply is kept as it was found
    ([None] is [undefined]). *)
Inductive Command :=
  | XGROUP_CREATE (key group id : string) (mkstream : bool)
  | XGROUP_DELCONSUMER (key group : string) (consumerName : option Reply)
  | XGROUP_DESTROY (key group : string)
  | EXPIRE (key : string) (seconds : Z)
  | XREADGROUP (group consumerName : string) (count block : Z) (key id : string)
  | XACK (key group id : string)
  | XADD (key id field value : string)
  | XTRIM_MAXLEN (key : string) (threshold : Z)
  | XINFO_CONSUMERS (key group : string)
  | XINFO_GROUPS (key : string)
  | EXISTS (key : string).

#[global] Instance Command_eq_dec : EqDecision Command.
Proof. solve_decision. Defined.

(** State of an ioredis connection created with [lazyConnect]. *)
Inductive ConnStatus := Wait | Ready | End_.

Inductive ConsoleEntry :=
  | LogMessage (m : ReceivedEventMessage)
  | LogDeleteGroup (groupName : string)
  | ErrorProcessingMessage.

(** [promise.catch(() => 0)]: a rejection becomes the value 0. *)
Definition catch0 {A} (r : Result A) : Result (A + Z) :=
  match r with
  | Resolved a => Resolved (inl a)
  | Rejected => Resolved (inr 0)
  end.

(** ** [src/stream.ts] *)

(** A record of a stream as [XREADGROUP] replies it: [[id, [field, value, ...]]]. *)
Definition StreamRecord : Type := string * list string.

(** One element of the reply of [XREADGROUP]: [[key, [record, ...]]]. *)
Definition StreamEntry : Type := string * list StreamRecord.

Module EventStream.

(** [EventStreamOptions], the [handler] apart, which is an operation of the
    owner (a variable of the section below). *)
Record Options := {
  stream : string;
  group : string;
  consumer : string;
  connection : RedisOptions;
  batchSize : Z;
  onlyNew : bool;
  messageRetention : Z
}.

(** The fields of the class; [status] and [sent] are the dedicated
    connection [this.redis], [loopPromise] says whether the field holds a
    promise, [errors] counts the calls of [console.error]. *)
Record t := {
  options : Options;
  status : ConnStatus;
  sent : list Command;
  loop : bool;
  loopPromise : bool;
  errors : nat
}.

Definition constructor (o : Options) : t :=
  {| options := o; status := Wait; sent := []; loop := false;
     loopPromise := false; errors := 0 |}.

Definition send (c : Command) (s : t) : t :=
  {| options := options s; status := status s; sent := sent s ++ [c];
     loop := loop s; loopPromise := loopPromise s; errors := errors s |}.

Definition set_status (c : ConnStatus) (s : t) : t :=
  {| options := options s; status := c; sent := sent s;
     loop := loop s; loopPromise := loopPromise s; errors := errors s |}.

Definition set_loop (l : bool) (s : t) : t :=
  {| options := options s; status := status s; sent := sent s;
     loop := l; loopPromise := loopPromise s; errors := errors s |}.

Definition set_loopPromise (p : bool) (s : t) : t :=
  {| options := options s; status := status s; sent := sent s;
     loop := loop s; loopPromise := p; errors := errors s |}.

Definition consoleError (s : t) : t :=
  {| options := options s; status := status s; sent := sent s;
     loop := loop s; loopPromise := loopPromise s; errors := S (errors s) |}.

Definition getStreamKey (s : t) : string := stream (options s).

Definition getGroupKey (s : t) : string := group (options s).

(** [init].  [connect] and [create] are what the connection answers to
    [connect()] and to [XGROUP CREATE]; [EXPIRE] is not awaited.  The last
    line runs [startLoop] up to its first [await]: the flag is set. *)
Definition init (connect create : Result unit) (s : t) : t * outcome :=
  match connect with
  | Rejected => (s, Thrown)
  | Resolved _ =>
      let s1 := set_status Ready s in
      let startId := if onlyNew (options s1) then "$" else "0" in
      let s2 :=
        send (XGROUP_CREATE (stream (options s1)) (group (options s1)) startId true) s1 in
      match catch0 create with
      | Rejected => (s2, Thrown)
      | Resolved _ =>
          let s3 := send (EXPIRE (stream (options s2)) 60) s2 in
          (set_loop true (set_loopPromise true s3), Returned)
      end
  end.

(** [close]: the flag is cleared, the loop's promise awaited, the
    connection quit. *)
Definition close (s : t) : t := set_status End_ (set_loop false s).

Section Loop.
(** The owner's state, the decoded message, the codec and the owner's
    [handler]; the handler answers [None] when it does not return. *)
Context {E Msg : Type}.
Variable EJSON_parse : string -> option Msg.
Variable handler : Msg -> E -> option (E * outcome).

(** [try { await this.options.handler(EJSON.parse(value)) } catch { console.error }].
    [EJSON.parse] throws on [undefined] and on what it cannot read. *)
Definition tryHandle (value : option string) (st : t * E) : option (t * E) :=
  match value ≫= EJSON_parse with
  | None => Some (consoleError st.1, st.2)
  | Some m =>
      match handler m st.2 with
      | None => None
      | Some (e', Returned) => Some (st.1, e')
      | Some (e', Thrown) => Some (consoleError st.1, e')
      end
  end.

(** The body of [for (const message of messages)]: [message[1][0]] is the
    first record of the element, [messageValue[1]] its second field. *)
Definition forBody (message : StreamEntry) (st : t * E) : option (t * E) :=
  match message.2 !! 0%nat with
  | None => Some st
  | Some (messageId, messageValue) =>
      st1 ← tryHandle (messageValue !! 1%nat) st;
      Some (send (XACK (stream (options st1.1)) (group (options st1.1)) messageId) st1.1,
            st1.2)
  end.

Fixpoint forOf (messages : list StreamEntry) (st : t * E) : option (t * E) :=
  match messages with
  | [] => Some st
  | message :: rest => st1 ← forBody message st; forOf rest st1
  end.

(** The body of [while (this.loop)], for the reply [messages] of the
    blocking read ([None] is [null]: the read timed out). *)
Definition whileBody (messages : option (list StreamEntry)) (st : t * E)
  : option (t * E) :=
  let o := options st.1 in
  let s1 :=
    send (XREADGROUP (group o) (consumer o) (batchSize o) 1000 (stream o) ">") st.1 in
  match messages with
  | None => Some (s1, st.2)
  | Some ms => forOf ms (s1, st.2)
  end.

(** The loop against the successive replies of the store; it ends when
    the flag is found cleared, and the run ends with the replies. *)
Fixpoint while (replies : list (option (list StreamEntry))) (st : t * E)
  : option (t * E) :=
  match replies with
  | [] => Some st
  | messages :: rest =>
      if loop st.1 then st1 ← whileBody messages st; while rest st1
      else Some st
  end.

Definition startLoop (replies : list (option (list StreamEntry))) (st : t * E)
  : option (t * E) :=
  while replies (set_loop true st.1, st.2).
End Loop.

End EventStream.

(** ** [Set<EventHandler>]

    A [Set] keeps its elements in insertion order; [delete] leaves a hole
    where the element was, [add] appends, and an iterator is an index into
    the entries that skips the holes.  So an iteration sees the entries
    added while it runs and not the ones deleted ahead of it. *)
Abbreviation JSSet := (list (option EventHandler)).

Definition Set_values (s : JSSet) : list EventHandler := omap id s.

Definition Set_size (s : JSSet) : nat := length (Set_values s).

Definition Set_has (h : EventHandler) (s : JSSet) : bool :=
  bool_decide (Some h ∈ s).

Definition Set_add (h : EventHandler) (s : JSSet) : JSSet :=
  if Set_has h s then s else s ++ [Some h].

Fixpoint Set_delete (h : EventHandler) (s : JSSet) : JSSet :=
  match s with
  | [] => []
  | e :: s' => if decide (e = Some h) then None :: s' else e :: Set_delete h s'
  end.

(** ** [src/eventbus.ts] *)

(** [Record<EventMode, EventStream>], built with the keys in the order
    anycast, broadcast, unicast. *)
Record Streams := {
  anycast : EventStream.t;
  broadcast : EventStream.t;
  unicast : EventStream.t
}.

Definition getStream (m : EventMode) (ss : Streams) : EventStream.t :=
  match m with
  | ANYCAST => anycast ss
  | BROADCAST => broadcast ss
  | UNICAST => unicast ss
  end.

Definition setStream (m : EventMode) (s : EventStream.t) (ss : Streams) : Streams :=
  match m with
  | ANYCAST => {| anycast := s; broadcast := broadcast ss; unicast := unicast ss |}
  | BROADCAST => {| anycast := anycast ss; broadcast := s; unicast := unicast ss |}
  | UNICAST => {| anycast := anycast ss; broadcast := broadcast ss; unicast := s |}
  end.

(** The keys of [this.streams] in the order of [Object.values]. *)
Definition streamModes : list EventMode := [ANYCAST; BROADCAST; UNICAST].

(** The fields of [EventBus].  [status] and [sent] are the control
    connection [this.redis].  [handlers] is the [Map] from a topic to a
    reference to a [Set] object, and [sets] holds the [Set] objects ever
    made by [new Set()], a reference being an index.  [closures] counts the
    wrappers [once] has made.  [calls] lists the invocations of the caller's
    functions, [console] what was written to the console. *)
Record EventBus := {
  status : ConnStatus;
  sent : list Command;
  instanceId : string;
  keyPrefix : string;
  streams : Streams;
  options : Options.t;
  sets : list JSSet;
  handlers : gmap string nat;
  closures : nat;
  maintenanceTimer : option Z;
  calls : list (nat * ReceivedEventMessage);
  console : list ConsoleEntry
}.

Definition set_status (x : ConnStatus) (b : EventBus) : EventBus :=
  {| status := x; sent := sent b; instanceId := instanceId b;
     keyPrefix := keyPrefix b; streams := streams b; options := options b;
     sets := sets b; handlers := handlers b; closures := closures b;
     maintenanceTimer := maintenanceTimer b; calls := calls b; console := console b |}.

Definition send (c : Command) (b : EventBus) : EventBus :=
  {| status := status b; sent := sent b ++ [c]; instanceId := instanceId b;
     keyPrefix := keyPrefix b; streams := streams b; options := options b;
     sets := sets b; handlers := handlers b; closures := closures b;
     maintenanceTimer := maintenanceTimer b; calls := calls b; console := console b |}.

Definition set_streams (x : Streams) (b : EventBus) : EventBus :=
  {| status := status b; sent := sent b; instanceId := instanceId b;
     keyPrefix := keyPrefix b; streams := x; options := options b;
     sets := sets b; handlers := handlers b; closures := closures b;
     maintenanceTimer := maintenanceTimer b; calls := calls b; console := console b |}.

Definition set_sets (x : list JSSet) (b : EventBus) : EventBus :=
  {| status := status b; sent := sent b; instanceId := instanceId b;
     keyPrefix := keyPrefix b; streams := streams b; options := options b;
     sets := x; handlers := handlers b; closures := closures b;
     maintenanceTimer := maintenanceTimer b; calls := calls b; console := console b |}.

Definition set_handlers (x : gmap string nat) (b : EventBus) : EventBus :=
  {| status := status b; sent := sent b; instanceId := instanceId b;
     keyPrefix := keyPrefix b; streams := streams b; options := options b;
     sets := sets b; handlers := x; closures := closures b;
     maintenanceTimer := maintenanceTimer b; calls := calls b; console := console b |}.

Definition set_closures (x : nat) (b : EventBus) : EventBus :=
  {| status := status b; sent := sent b; instanceId := instanceId b;
     keyPrefix := keyPrefix b; streams := streams b; options := options b;
     sets := sets b; handlers := handlers b; closures := x;
     maintenanceTimer := maintenanceTimer b; calls := calls b; console := console b |}.

Definition set_maintenanceTimer (x : option Z) (b : EventBus) : EventBus :=
  {| status := status b; sent := sent b; instanceId := instanceId b;
     keyPrefix := keyPrefix b; streams := streams b; options := options b;
     sets := sets b; handlers := handlers b; closures := closures b;
     maintenanceTimer := x; calls := calls b; console := console b |}.

Definition called (f : nat) (m : ReceivedEventMessage) (b : EventBus) : EventBus :=
  {| status := status b; sent := sent b; instanceId := instanceId b;
     keyPrefix := keyPrefix b; streams := streams b; options := options b;
     sets := sets b; handlers := handlers b; closures := closures b;
     maintenanceTimer := maintenanceTimer b; calls := calls b ++ [(f, m)];
     console := console b |}.

Definition consoleLog (x : ConsoleEntry) (b : EventBus) : EventBus :=
  {| status := status b; sent := sent b; instanceId := instanceId b;
     keyPrefix := keyPrefix b; streams := streams b; options := options b;
     sets := sets b; handlers := handlers b; closures := closures b;
     maintenanceTimer := maintenanceTimer b; calls := calls b;
     console := console b ++ [x] |}.

(** [constructor(options)]; [uuid] is what [crypto.randomUUID()] returns. *)
Definition resolveOptions (o : EventBusOptions.t) : Options.t :=
  {| Options.name := orString (EventBusOptions.name o) "default";
     Options.redis := EventBusOptions.redis o;
     Options.messageRetention := orNumber (EventBusOptions.messageRetention o) (5 * 60 * 1000);
     Options.streamTTL := Z.max (nullish (EventBusOptions.streamTTL o) (60 * 60)) (5 * 60);
     Options.onlyNew := nullish (EventBusOptions.onlyNew o) false;
     Options.debug := nullish (EventBusOptions.debug o) false;
     Options.maxMessageCount := nullish (EventBusOptions.maxMessageCount o) 5000;
     Options.role := EventBusOptions.role o |}.

Definition constructor (o : EventBusOptions.t) (uuid : string) : EventBus :=
  let opts := resolveOptions o in
  let instanceId := removeDashes uuid in
  let keyPrefix := "eventbus:" +:+ Options.name opts +:+ ":" in
  let mk stream group batchSize :=
    EventStream.constructor
      {| EventStream.stream := stream;
         EventStream.group := group;
         EventStream.consumer := instanceId;
         EventStream.connection := Options.redis opts;
         EventStream.batchSize := batchSize;
         EventStream.onlyNew := Options.onlyNew opts;
         EventStream.messageRetention := Options.messageRetention opts |} in
  {| status := Wait;
     sent := [];
     instanceId := instanceId;
     keyPrefix := keyPrefix;
     streams :=
       {| anycast := mk (keyPrefix +:+ "anycast") (keyPrefix +:+ "group") 1;
          broadcast := mk (keyPrefix +:+ "broadcast") (keyPrefix +:+ instanceId) 1;
          unicast := mk (keyPrefix +:+ "unicast:" +:+ instanceId) (keyPrefix +:+ instanceId) 10 |};
     options := opts;
     sets := [];
     handlers := ∅;
     closures := 0;
     maintenanceTimer := None;
     calls := [];
     console := [] |}.

(** The getter [id]. *)
Definition id_ (b : EventBus) : string := instanceId b.

(** [on(type, handler)]. *)
Definition on (type : string) (handler : EventHandler) (b : EventBus) : EventBus :=
  let b1 :=
    match handlers b !! type with
    | Some _ => b
    | None => set_handlers (<[type := length (sets b)]> (handlers b)) (set_sets (sets b ++ [[]]) b)
    end in
  match handlers b1 !! type with
  | Some r => set_sets (alter (Set_add handler) r (sets b1)) b1
  | None => b1
  end.

(** [off(type, handler)]. *)
Definition off (type : string) (handler : EventHandler) (b : EventBus) : EventBus :=
  match handlers b !! type with
  | Some r =>
      let b1 := set_sets (alter (Set_delete handler) r (sets b)) b in
      if decide (Set_size (default [] (sets b1 !! r)) = 0%nat)
      then set_handlers (delete type (handlers b1)) b1
      else b1
  | None => b
  end.

(** [once(type, handler)]: the wrapper is a new function object. *)
Definition once (type : string) (handler : nat) (b : EventBus) : EventBus :=
  let wrappedHandler := OnceWrapper (closures b) type handler in
  on type wrappedHandler (set_closures (S (closures b)) b).

(** [close()]. *)
Definition close (b : EventBus) : EventBus :=
  let b1 := set_maintenanceTimer None (set_status End_ b) in
  let ss := streams b1 in
  set_streams
    {| anycast := EventStream.close (anycast ss);
       broadcast := EventStream.close (broadcast ss);
       unicast := EventStream.close (unicast ss) |} b1.

(** ** Sample collaborators and inputs

    A codec, caller's functions and option sets on which the operations are
    evaluated: [sampleThrows] makes the caller's function 1 throw on every
    message and every other function return. *)

Definition sampleRedis : RedisOptions := {| host := "localhost"; port := 6379 |}.

(** [{ redis }]: every optional property absent. *)
Definition onlyRedis (r : RedisOptions) : EventBusOptions.t :=
  {| EventBusOptions.name := None;
     EventBusOptions.redis := r;
     EventBusOptions.messageRetention := None;
     EventBusOptions.streamTTL := None;
     EventBusOptions.onlyNew := None;
     EventBusOptions.debug := None;
     EventBusOptions.maxMessageCount := None;
     EventBusOptions.role := None |}.

(** [{ redis, role: 'publisher' }], as the anycast test builds its publisher. *)
Definition publisherOptions : EventBusOptions.t :=
  {| EventBusOptions.name := None;
     EventBusOptions.redis := sampleRedis;
     EventBusOptions.messageRetention := None;
     EventBusOptions.streamTTL := None;
     EventBusOptions.onlyNew := None;
     EventBusOptions.debug := None;
     EventBusOptions.maxMessageCount := None;
     EventBusOptions.role := Some publisher |}.

Definition sampleUUID : string := "0a1b-2c3d".

Definition sampleBus : EventBus := constructor (onlyRedis sampleRedis) sampleUUID.

Definition sampleStringify (m : ReceivedEventMessage) : string :=
  modeValue (mode m) +:+ "|" +:+ jsString (target m) +:+ "|" +:+ event m.

Definition sampleMessage (topic : string) : ReceivedEventMessage :=
  {| mode := BROADCAST; target := None; event := topic; data := None;
     timestamp := 0; source := "peer" |}.

Definition sampleParse (value : string) : option ReceivedEventMessage :=
  if String.eqb value "" then None else Some (sampleMessage value).

Definition sampleThrows (f : nat) (_ : ReceivedEventMessage) : bool := Nat.eqb f 1.

(** All answers of the store to [init] are positive. *)
Definition allResolved (_ : EventMode) : Result unit * Result unit :=
  (Resolved (), Resolved ()).

(** One consumer in the reply of [XINFO CONSUMERS], as Redis lays it out:
    [["name", name, "pending", n, "idle", ms, ...]]; [cextra] is what newer
    servers append (["inactive", ms]). *)
Record ConsumerInfo := {
  cname : string;
  cpending : Z;
  cidle : Z;
  cextra : list Reply
}.

Definition consumerEntry (c : ConsumerInfo) : list Reply :=
  [RStr "name"; RStr (cname c); RStr "pending"; RInt (cpending c);
   RStr "idle"; RInt (cidle c)] ++ cextra c.

(** The commands issued on the control connection between two states. *)
Definition issued (b b' : EventBus) : list Command :=
  drop (length (sent b)) (sent b').

(** [this.handlers.get(type)] as the list of the handlers in the [Set], in
    the order of insertion; [None] when the [Map] has no entry for the topic. *)
Definition subscribers (type : string) (b : EventBus) : option (list EventHandler) :=
  match handlers b !! type with
  | Some r => Some (Set_values (default [] (sets b !! r)))
  | None => None
  end.

(** No topic of the table has an empty handler set. *)
Definition nonEmptyTopics (b : EventBus) : Prop :=
  ∀ type, subscribers type b ≠ Some [].

(** The invariant of the representation that carries it: a topic's [Set]
    has an element, and two topics never share a [Set] object. *)
Definition tableInv (b : EventBus) : Prop :=
  (∀ type r, handlers b !! type = Some r →
     (0 < Set_size (default [] (sets b !! r)))%nat)
  ∧ (∀ t1 t2 r, handlers b !! t1 = Some r → handlers b !! t2 = Some r → t1 = t2).

(** A [Set] never holds a handler twice. *)
Definition setsNoDup (b : EventBus) : Prop :=
  ∀ r s, sets b !! r = Some s → NoDup (Set_values s).

(** The wrappers of [once] in the table were made by earlier calls of
    [once]: their numbers are below the counter. *)
Definition wrappersFresh (b : EventBus) : Prop :=
  ∀ r s w t f, sets b !! r = Some s → OnceWrapper w t f ∈ Set_values s →
    (w < closures b)%nat.

(** The acknowledgements that a reply of [XREADGROUP] calls for on the
    reader of [key] and [group]: one for the first record of every element
    that has a record. *)
Definition acksOf (key group : string) (messages : list StreamEntry) : list Command :=
  omap (fun message : StreamEntry =>
          match message.2 with
          | (messageId, _) :: _ => Some (XACK key group messageId)
          | [] => None
          end) messages.

(** The names of the groups in a reply of [XINFO GROUPS]: the element 1 of
    every entry that has a string there ([["name", name, ...]]). *)
Definition groupNames (gs : list (list Reply)) : list string :=
  omap (fun g : list Reply =>
          match g !! 1%nat with
          | Some (RStr name) => Some name
          | _ => None
          end) gs.

(** The comparison of durations that the pruning is documented to make:
    an idle time, which Redis reports in milliseconds, exceeds a
    [streamTTL], which is a number of seconds. *)
Definition idleExceedsTTL (idleMilliseconds ttlSeconds : Z) : Prop :=
  idleMilliseconds > 1000 * ttlSeconds.

(** The rule of the client for a connection that was quit: the command is
    rejected ("Connection is closed"). *)
Definition quitRejects (b : EventBus) (reply : Result string) : Prop :=
  status b = End_ → reply = Rejected.

Section Bus.
(** The collaborators: the EJSON codec and the caller's functions.
    [throws f m] says whether the caller's function [f] throws (or
    returns a promise that rejects) on the message [m]; the caller's
    functions do not call back into the bus. *)
Variable EJSON_stringify : ReceivedEventMessage -> string.
Variable EJSON_parse : string -> option ReceivedEventMessage.
Variable throws : nat -> ReceivedEventMessage -> bool.

(** [await handler(message)] for a handler of the table.  The wrapper of
    [once] is [try { await handler(msg) } finally { this.off(type, wrappedHandler) }]. *)
Definition invoke (h : EventHandler) (message : ReceivedEventMessage) (b : EventBus)
  : EventBus * outcome :=
  let out := if throws (userFn h) message then Thrown else Returned in
  match h with
  | UserFn f => (called f message b, out)
  | OnceWrapper _ type f => (off type h (called f message b), out)
  end.

(** [for (const handler of handlers) { await handler(message) }] from the
    index [i] of the iterator on, over the [Set] object [r] as it is when
    the iterator looks; [None] when the fuel runs out. *)
Fixpoint forOfHandlers (fuel : nat) (r i : nat) (message : ReceivedEventMessage)
    (b : EventBus) : option (EventBus * outcome) :=
  match fuel with
  | O => None
  | S fuel' =>
      match sets b !! r ≫= (.!! i) with
      | None => Some (b, Returned)
      | Some None => forOfHandlers fuel' r (S i) message b
      | Some (Some handler) =>
          match invoke handler message b with
          | (b', Thrown) => Some (b', Thrown)
          | (b', Returned) => forOfHandlers fuel' r (S i) message b'
          end
      end
  end.

(** [handleMessage(message)].  The fuel is one more than the number of
    entries of the [Set] when the iteration starts. *)
Definition handleMessage (message : ReceivedEventMessage) (b : EventBus)
  : option (EventBus * outcome) :=
  let b1 := if Options.debug (options b) then consoleLog (LogMessage message) b else b in
  match handlers b1 !! event message with
  | Some r =>
      forOfHandlers (S (length (default [] (sets b1 !! r)))) r 0 message b1
  | None => Some (b1, Returned)
  end.

(** The reader loop of the stream of mode [m], run against the replies
    [replies] of its blocking reads, with [handleMessage] as the handler. *)
Definition readerLoop (m : EventMode) (replies : list (option (list StreamEntry)))
    (b : EventBus) : option EventBus :=
  st ← EventStream.while EJSON_parse handleMessage replies (getStream m (streams b), b);
  Some (set_streams (setStream m st.1 (streams st.2)) st.2).

(** The reply of [XINFO CONSUMERS] and of [XINFO GROUPS] for one stream. *)
Record MaintenanceReplies := {
  consumers : list (list Reply);
  groups : list (list Reply)
}.

(** The callback of [consumers.forEach]: [[, name, , , , idle]] takes the
    elements 1 and 5 of the entry.  Redis replies the idle time as an
    integer; [undefined > n] is false. *)
Definition pruneConsumer (streamKey groupKey : string) (streamTTL : Z)
    (entry : list Reply) : list Command :=
  match entry !! 5%nat with
  | Some (RInt idle) =>
      if bool_decide (idle > streamTTL)
      then [XGROUP_DELCONSUMER streamKey groupKey (entry !! 1%nat)]
      else []
  | _ => []
  end.

Definition sendAll (cs : list Command) (b : EventBus) : EventBus :=
  foldl (fun b c => send c b) b cs.

(** The key whose existence says that the owner of the group [name] lives. *)
Definition witnessKey (keyPrefix name : string) : string :=
  keyPrefix +:+ "unicast:" +:+ replaceFirst keyPrefix name.

(** The callback of [groups.forEach] up to the first probe [EXISTS], which
    is issued at once; [name.replace] throws on a name that is no string. *)
Fixpoint probeGroups (gs : list (list Reply)) (b : EventBus) : EventBus * outcome :=
  match gs with
  | [] => (b, Returned)
  | g :: rest =>
      match g !! 1%nat with
      | Some (RStr name) => probeGroups rest (send (EXISTS (witnessKey (keyPrefix b) name)) b)
      | _ => (b, Thrown)
      end
  end.

(** What follows the reply [first] of the probe of the group [name]: the
    probe is repeated two seconds later, and on its reply [second] the
    group is destroyed. *)
Definition confirmGroup (streamKey name : string) (first second : Z) (b : EventBus)
  : EventBus :=
  if Z.eqb first 0 then
    let b1 := send (EXISTS (witnessKey (keyPrefix b) name)) b in
    if Z.eqb second 0 then
      let b2 := if Options.debug (options b1) then consoleLog (LogDeleteGroup name) b1 else b1 in
      send (XGROUP_DESTROY streamKey name) b2
    else b1
  else b.

(** The body of [for (const stream of Object.values(this.streams))]. *)
Definition maintainStream (m : EventMode) (r : MaintenanceReplies) (b : EventBus)
  : EventBus * outcome :=
  let stream := getStream m (streams b) in
  let streamKey := EventStream.getStreamKey stream in
  let b1 := send (XTRIM_MAXLEN streamKey (Options.maxMessageCount (options b))) b in
  let b2 := send (EXPIRE streamKey (Options.streamTTL (options b1))) b1 in
  let b3 := send (XINFO_CONSUMERS streamKey (EventStream.getGroupKey stream)) b2 in
  let b4 :=
    sendAll
      (flat_map
         (pruneConsumer streamKey (EventStream.getGroupKey stream)
            (Options.streamTTL (options b3)))
         (consumers r)) b3 in
  if decide (m = BROADCAST) then
    probeGroups (groups r) (send (XINFO_GROUPS streamKey) b4)
  else (b4, Returned).

Fixpoint maintainStreams (ms : list EventMode) (replies : EventMode -> MaintenanceReplies)
    (b : EventBus) : EventBus * outcome :=
  match ms with
  | [] => (b, Returned)
  | m :: rest =>
      match maintainStream m (replies m) b with
      | (b', Thrown) => (b', Thrown)
      | (b', Returned) => maintainStreams rest replies b'
      end
  end.

(** [maintainOnce()]. *)
Definition maintainOnce (replies : EventMode -> MaintenanceReplies) (b : EventBus)
  : EventBus * outcome :=
  maintainStreams streamModes replies b.

(** [startMaintenanceTimer()]: the first pass is started and not awaited
    (it is a [maintainOnce] of its own), the interval is 30 seconds. *)
Definition startMaintenanceTimer (b : EventBus) : EventBus :=
  set_maintenanceTimer (Some (30 * 1000)) b.

(** [init()].  [connect] is the answer to the [connect()] of the control
    connection, [answers m] the answers to [connect()] and
    [XGROUP CREATE] on the connection of the stream of mode [m].
    [Promise.all] starts every [stream.init()] and rejects when one does. *)
Definition init (connect : Result unit) (answers : EventMode -> Result unit * Result unit)
    (b : EventBus) : EventBus * outcome :=
  match connect with
  | Rejected => (b, Thrown)
  | Resolved _ =>
      let b1 := set_status Ready b in
      let run m := EventStream.init (answers m).1 (answers m).2 (getStream m (streams b1)) in
      let b2 :=
        set_streams
          {| anycast := (run ANYCAST).1;
             broadcast := (run BROADCAST).1;
             unicast := (run UNICAST).1 |} b1 in
      if forallb (fun m => bool_decide ((run m).2 = Returned)) streamModes
      then (startMaintenanceTimer b2, Returned)
      else (b2, Thrown)
  end.

(** [emit(event, message)].  [now] is [Date.now()], [reply] the answer to
    [XADD]. *)
Definition emitMode (message : EventMessage.t) : EventMode :=
  if truthy (EventMessage.target message) then UNICAST
  else nullish (EventMessage.mode message) BROADCAST.

Definition emitPayload (event : string) (message : EventMessage.t) (now : Z)
    (b : EventBus) : ReceivedEventMessage :=
  {| mode := emitMode message;
     target := EventMessage.target message;
     event := event;
     data := EventMessage.data message;
     timestamp := now;
     source := instanceId b |}.

Definition emitStreamKey (message : EventMessage.t) (b : EventBus) : string :=
  if decide (emitMode message = UNICAST)
  then keyPrefix b +:+ "unicast:" +:+ jsString (EventMessage.target message)
  else EventStream.getStreamKey (getStream (emitMode message) (streams b)).

Definition emit (event : string) (message : EventMessage.t) (now : Z)
    (reply : Result string) (b : EventBus) : EventBus * Result string :=
  let payload := emitPayload event message now b in
  let streamKey := emitStreamKey message b in
  (send (XADD streamKey "*" "message" (EJSON_stringify payload)) b, reply).

(** A caller's view of the subscriber table: a sequence of calls of the
    public methods, and of deliveries of messages in between. *)
Inductive Call :=
  | CallOn (type : string) (f : nat)
  | CallOff (type : string) (f : nat)
  | CallOnce (type : string) (f : nat)
  | Deliver (message : ReceivedEventMessage).

Definition step (c : Call) (b : EventBus) : EventBus :=
  match c with
  | CallOn type f => on type (UserFn f) b
  | CallOff type f => off type (UserFn f) b
  | CallOnce type f => once type f b
  | Deliver message =>
      match handleMessage message b with
      | Some (b', _) => b'
      | None => b
      end
  end.

Definition run (cs : list Call) (b : EventBus) : EventBus :=
  foldl (fun b c => step c b) b cs.

(** The loop of [handleMessage] over a list of handlers fixed in advance:
    each is awaited in turn, and the first that throws ends the loop. *)
Fixpoint dispatch (hs : list EventHandler) (message : ReceivedEventMessage)
    (b : EventBus) : EventBus * outcome :=
  match hs with
  | [] => (b, Returned)
  | h :: rest =>
      match invoke h message b with
      | (b', Thrown) => (b', Thrown)
      | (b', Returned) => dispatch rest message b'
      end
  end.

(** The state in which [handleMessage] starts its loop: the message is
    logged when [debug] is set. *)
Definition logged (message : ReceivedEventMessage) (b : EventBus) : EventBus :=
  if Options.debug (options b) then consoleLog (LogMessage message) b else b.

(** The commands of the maintenance of the stream of mode [m], when every
    group of the reply has a name: trim, renewal, the listing and pruning
    of the consumers and, for the broadcast stream, the listing of the
    groups and one probe for each. *)
Definition streamPass (m : EventMode) (r : MaintenanceReplies) (b : EventBus)
  : list Command :=
  let stream := getStream m (streams b) in
  let streamKey := EventStream.getStreamKey stream in
  let groupKey := EventStream.getGroupKey stream in
  [XTRIM_MAXLEN streamKey (Options.maxMessageCount (options b));
   EXPIRE streamKey (Options.streamTTL (options b));
   XINFO_CONSUMERS streamKey groupKey]
  ++ flat_map (pruneConsumer streamKey groupKey (Options.streamTTL (options b)))
       (consumers r)
  ++ (if decide (m = BROADCAST)
      then XINFO_GROUPS streamKey
           :: map (fun name => EXISTS (witnessKey (keyPrefix b) name)) (groupNames (groups r))
      else []).

(** ** Properties *)

(** *** The constructor *)

(** C9: the resolved [streamTTL] is the maximum of the given value (3600
    when none is given) and 300; a [name], [messageRetention], [onlyNew],
    [debug] or [maxMessageCount] that is not given resolves to "default",
    300000, false, false and 5000. *)
Theorem constructor_defaults (o : EventBusOptions.t) (uuid : string) :
  let r := options (constructor o uuid) in
  Options.streamTTL r = Z.max (default 3600 (EventBusOptions.streamTTL o)) 300
  ∧ (EventBusOptions.name o = None → Options.name r = "default")
  ∧ (EventBusOptions.messageRetention o = None → Options.messageRetention r = 300000)
  ∧ (EventBusOptions.onlyNew o = None → Options.onlyNew r = false)
  ∧ (EventBusOptions.debug o = None → Options.debug r = false)
  ∧ (EventBusOptions.maxMessageCount o = None → Options.maxMessageCount r = 5000).
Proof.
  cbn [constructor options resolveOptions Options.streamTTL Options.name
       Options.messageRetention Options.onlyNew Options.debug
       Options.maxMessageCount].
  split; [reflexivity|].
  repeat split; intros ->; reflexivity.
Qed.

(** The clamp: the resolved [streamTTL] is never below 300, and a given
    value of at least 300 is kept. *)
Lemma streamTTL_clamped (o : EventBusOptions.t) (uuid : string) :
  (300 ≤ Options.streamTTL (options (constructor o uuid)))%Z.
Proof. cbn. lia. Qed.

Lemma constructor_stream_keys (o : EventBusOptions.t) (uuid : string) :
  let b := constructor o uuid in
  EventStream.getStreamKey (anycast (streams b)) = keyPrefix b +:+ "anycast"
  ∧ EventStream.getStreamKey (broadcast (streams b)) = keyPrefix b +:+ "broadcast"
  ∧ EventStream.getStreamKey (unicast (streams b))
    = keyPrefix b +:+ "unicast:" +:+ instanceId b.
Proof. repeat split. Qed.

Lemma constructor_batch_sizes (o : EventBusOptions.t) (uuid : string) :
  let ss := streams (constructor o uuid) in
  EventStream.batchSize (EventStream.options (anycast ss)) = 1
  ∧ EventStream.batchSize (EventStream.options (broadcast ss)) = 1
  ∧ EventStream.batchSize (EventStream.options (unicast ss)) = 10.
Proof. repeat split. Qed.

(** *** The stream reader's [init] *)

(** C8: once connected, [init] of a stream reader issues [XGROUP CREATE]
    with [MKSTREAM] and the start id "$" when [onlyNew] is set and "0"
    otherwise, then [EXPIRE] of the stream with 60 seconds; it succeeds
    whatever [XGROUP CREATE] answered (a group that exists included), and
    the reader loop is started. *)
Theorem stream_init_creates_group (create : Result unit) (s : EventStream.t) :
  let o := EventStream.options s in
  let r := EventStream.init (Resolved ()) create s in
  r.2 = Returned
  ∧ EventStream.sent r.1
    = EventStream.sent s
      ++ [XGROUP_CREATE (EventStream.stream o) (EventStream.group o)
            (if EventStream.onlyNew o then "$" else "0") true;
          EXPIRE (EventStream.stream o) 60]
  ∧ EventStream.loop r.1 = true.
Proof.
  destruct create; cbn; rewrite <- app_assoc; repeat split.
Qed.

(** *** [init] of the bus *)

(** [init] does not read the role: for every option set, an [init] whose
    connections all succeed starts the three reader loops and the
    maintenance timer. *)
Lemma init_starts_loops_in_every_role (o : EventBusOptions.t) (uuid : string) :
  let r := init (Resolved ()) allResolved (constructor o uuid) in
  r.2 = Returned
  ∧ EventStream.loop (anycast (streams r.1)) = true
  ∧ EventStream.loop (broadcast (streams r.1)) = true
  ∧ EventStream.loop (unicast (streams r.1)) = true
  ∧ maintenanceTimer r.1 = Some 30000.
Proof. repeat split. Qed.

(** C3 (the code's behaviour): at the option set of the publisher of the
    anycast test, [{ redis, role: 'publisher' }], [init] starts the three
    reader loops. *)
Theorem init_publisher_reads :
  let r := init (Resolved ()) allResolved (constructor publisherOptions sampleUUID) in
  Options.role (options r.1) = Some publisher
  ∧ forallb (fun m => EventStream.loop (getStream m (streams r.1))) streamModes = true.
Proof. split; reflexivity. Qed.

(** [init] of the bus runs the [init] of each of the three readers: each
    connection carries the creation of its group and the 60 seconds of its
    stream, whatever the three [XGROUP CREATE] answered. *)
Lemma init_creates_three_groups (o : EventBusOptions.t) (uuid : string)
    (create : EventMode → Result unit) :
  let b := constructor o uuid in
  let startId := if Options.onlyNew (options b) then "$" else "0" in
  let r := init (Resolved ()) (fun m => (Resolved (), create m)) b in
  r.2 = Returned
  ∧ EventStream.sent (anycast (streams r.1))
    = [XGROUP_CREATE (keyPrefix b +:+ "anycast") (keyPrefix b +:+ "group") startId true;
       EXPIRE (keyPrefix b +:+ "anycast") 60]
  ∧ EventStream.sent (broadcast (streams r.1))
    = [XGROUP_CREATE (keyPrefix b +:+ "broadcast") (keyPrefix b +:+ instanceId b) startId true;
       EXPIRE (keyPrefix b +:+ "broadcast") 60]
  ∧ EventStream.sent (unicast (streams r.1))
    = [XGROUP_CREATE (keyPrefix b +:+ "unicast:" +:+ instanceId b)
         (keyPrefix b +:+ instanceId b) startId true;
       EXPIRE (keyPrefix b +:+ "unicast:" +:+ instanceId b) 60].
Proof.
  cbn zeta. unfold init. cbn -[String.append].
  destruct (create ANYCAST), (create BROADCAST), (create UNICAST);
    cbn -[String.append]; repeat split.
Qed.

(** *** [emit] *)

Lemma truthy_Some (t : string) : t ≠ "" → truthy (Some t) = true.
Proof.
  intros Ht. unfold truthy. destruct (String.eqb_spec t ""); [contradiction|reflexivity].
Qed.

(** C6 (amended): [emit] issues one [XADD key * message v] where [v]
    encodes an envelope whose [source] is the instance id, whose
    [timestamp] is the current time and whose [event] is the topic, and it
    returns what the store answered.  If [target] is a non-empty string
    the mode is UNICAST and the key is the prefix, "unicast:" and the
    target; otherwise the mode is [message.mode], BROADCAST when absent,
    and for BROADCAST and ANYCAST the key is the key of that mode's
    stream. *)
Theorem emit_routing (topic : string) (message : EventMessage.t) (now : Z)
    (reply : Result string) (b : EventBus) :
  ∃ payload key,
    emit topic message now reply b
    = (send (XADD key "*" "message" (EJSON_stringify payload)) b, reply)
    ∧ source payload = instanceId b
    ∧ timestamp payload = now
    ∧ event payload = topic
    ∧ (∀ t, EventMessage.target message = Some t → t ≠ "" →
         mode payload = UNICAST ∧ key = keyPrefix b +:+ "unicast:" +:+ t)
    ∧ (truthy (EventMessage.target message) = false →
         mode payload = default BROADCAST (EventMessage.mode message)
         ∧ (mode payload ≠ UNICAST →
              key = EventStream.getStreamKey (getStream (mode payload) (streams b)))).
Proof.
  exists (emitPayload topic message now b), (emitStreamKey message b).
  split; [reflexivity|]. repeat split.
  - cbn. unfold emitMode. rewrite H. by rewrite truthy_Some.
  - unfold emitStreamKey, emitMode. rewrite H, truthy_Some by done.
    rewrite decide_True by done. reflexivity.
  - cbn. unfold emitMode. by rewrite H.
  - cbn. unfold emitStreamKey. intros Hm. by rewrite decide_False.
Qed.

(** C4 (the code's behaviour): an [emit] with [mode: UNICAST] and no
    [target] builds an envelope of mode UNICAST without [target], and
    appends it to the key made of the prefix and "unicast:undefined". *)
Theorem emit_unicast_without_target (topic : string) (d : option Data) (now : Z)
    (reply : Result string) (b : EventBus) :
  emit topic
    {| EventMessage.mode := Some UNICAST; EventMessage.target := None;
       EventMessage.data := d |} now reply b
  = (send
       (XADD (keyPrefix b +:+ "unicast:undefined") "*" "message"
          (EJSON_stringify
             {| mode := UNICAST; target := None; event := topic; data := d;
                timestamp := now; source := instanceId b |})) b,
     reply).
Proof. reflexivity. Qed.

(** The part of the envelope invariant that [emit] does establish: a
    target that is present and not empty forces the mode UNICAST. *)
Lemma emit_target_forces_unicast (topic : string) (message : EventMessage.t)
    (now : Z) (b : EventBus) (t : string) :
  EventMessage.target message = Some t → t ≠ "" →
  mode (emitPayload topic message now b) = UNICAST
  ∧ target (emitPayload topic message now b) = Some t.
Proof.
  intros Ht Hne. cbn. unfold emitMode. rewrite Ht. by rewrite truthy_Some.
Qed.

(** *** [close] *)

Lemma close_stops (b : EventBus) :
  status (close b) = End_
  ∧ maintenanceTimer (close b) = None
  ∧ Forall (fun m => EventStream.loop (getStream m (streams (close b))) = false
                   ∧ EventStream.status (getStream m (streams (close b))) = End_)
      streamModes.
Proof. repeat split; repeat constructor. Qed.

(** [close] does not make the instance refuse [on], [off] and [once]: each
    of them does to a closed instance what it does to an open one, so
    calling it after [close] leaves the state that calling it before
    [close] leaves. *)
Lemma close_does_not_refuse (type : string) (h : EventHandler) (f : nat)
    (b : EventBus) :
  on type h (close b) = close (on type h b)
  ∧ off type h (close b) = close (off type h b)
  ∧ once type f (close b) = close (once type f b).
Proof.
  split; [|split].
  - unfold on. cbn. destruct (handlers b !! type) as [r|] eqn:E; cbn.
    + rewrite E. reflexivity.
    + rewrite lookup_insert_eq. reflexivity.
  - unfold off. cbn. destruct (handlers b !! type) as [r|] eqn:E; cbn; [|reflexivity].
    case_decide; reflexivity.
  - unfold once, on. cbn. destruct (handlers b !! type) as [r|] eqn:E; cbn.
    + rewrite E. reflexivity.
    + rewrite lookup_insert_eq. reflexivity.
Qed.

(** C7 (amended): after [close], [emit] is refused: the control
    connection was quit, the client rejects the [XADD], and [emit] hands
    the rejection on.  [on], [off] and [once] are not refused: each does to
    the closed instance what it does to an open one.  [init] is not
    refused by the bus either: when the connections connect again, it
    starts the three reader loops and the maintenance timer. *)
Theorem close_refuses_emit_only (topic : string) (message : EventMessage.t) (now : Z)
    (reply : Result string) (type : string) (h : EventHandler) (f : nat) (b : EventBus) :
  (quitRejects (close b) reply →
   (emit topic message now reply (close b)).2 = Rejected)
  ∧ on type h (close b) = close (on type h b)
  ∧ off type h (close b) = close (off type h b)
  ∧ once type f (close b) = close (once type f b)
  ∧ (let r := init (Resolved ()) allResolved (close b) in
     r.2 = Returned
     ∧ Forall (fun m => EventStream.loop (getStream m (streams r.1)) = true) streamModes
     ∧ maintenanceTimer r.1 = Some 30000).
Proof.
  split.
  { intros Hquit. cbn [emit snd]. apply Hquit. reflexivity. }
  destruct (close_does_not_refuse type h f b) as (Hon & Hoff & Honce).
  split; [exact Hon|]. split; [exact Hoff|]. split; [exact Honce|].
  cbn. repeat split; repeat constructor.
Qed.

(** *** Maintenance *)

Lemma sent_sendAll (cs : list Command) (b : EventBus) :
  sent (sendAll cs b) = sent b ++ cs.
Proof.
  revert b. induction cs as [|c cs IH]; intros b; cbn.
  - by rewrite app_nil_r.
  - unfold sendAll in IH. rewrite IH. cbn. by rewrite <- app_assoc.
Qed.

Lemma sent_probeGroups (gs : list (list Reply)) (b : EventBus) :
  ∃ keys, sent (probeGroups gs b).1 = sent b ++ map EXISTS keys.
Proof.
  revert b. induction gs as [|g gs IH]; intros b; cbn.
  - exists []. by rewrite app_nil_r.
  - destruct (g !! 1%nat) as [[name|n]|]; cbn; try (exists []; by rewrite app_nil_r).
    destruct (IH (send (EXISTS (witnessKey (keyPrefix b) name)) b)) as [keys Hk].
    exists (witnessKey (keyPrefix b) name :: keys).
    rewrite Hk. cbn. by rewrite <- app_assoc.
Qed.

Lemma pruneConsumer_entry (streamKey groupKey : string) (ttl : Z) (c : ConsumerInfo) :
  pruneConsumer streamKey groupKey ttl (consumerEntry c)
  = if bool_decide (cidle c > ttl)
    then [XGROUP_DELCONSUMER streamKey groupKey (Some (RStr (cname c)))]
    else [].
Proof. reflexivity. Qed.

(** The commands of the maintenance of one stream, in order. *)
Lemma maintainStream_sent (m : EventMode) (r : MaintenanceReplies) (b : EventBus) :
  let stream := getStream m (streams b) in
  let streamKey := EventStream.getStreamKey stream in
  let groupKey := EventStream.getGroupKey stream in
  ∃ keys,
    issued b (maintainStream m r b).1
    = [XTRIM_MAXLEN streamKey (Options.maxMessageCount (options b));
       EXPIRE streamKey (Options.streamTTL (options b));
       XINFO_CONSUMERS streamKey groupKey]
      ++ flat_map (pruneConsumer streamKey groupKey (Options.streamTTL (options b)))
           (consumers r)
      ++ (if decide (m = BROADCAST) then XINFO_GROUPS streamKey :: map EXISTS keys else []).
Proof.
  cbn zeta. unfold issued, maintainStream. cbn [options send].
  case_decide.
  - match goal with |- context [probeGroups ?g ?x] =>
      destruct (sent_probeGroups g x) as [keys Hk] end.
    exists keys. rewrite Hk. cbn [sent send]. rewrite sent_sendAll. cbn [sent send].
    rewrite <- !app_assoc. rewrite drop_app_length. reflexivity.
  - exists []. cbn [fst]. rewrite sent_sendAll. cbn [sent send].
    rewrite <- !app_assoc. rewrite drop_app_length, app_nil_r. reflexivity.
Qed.

(** What the pruning compares: in the maintenance of a stream, for every
    consumer that [XINFO CONSUMERS] lists (each name once),
    [XGROUP DELCONSUMER] is issued for it if and only if the number that
    the store reported as its idle time is greater than the number that
    is the resolved [streamTTL], whatever the units of the two. *)
Lemma prune_idle_consumers (m : EventMode) (r : MaintenanceReplies)
    (b : EventBus) (cs : list ConsumerInfo) (c : ConsumerInfo) :
  consumers r = map consumerEntry cs →
  NoDup (map cname cs) →
  c ∈ cs →
  let stream := getStream m (streams b) in
  XGROUP_DELCONSUMER (EventStream.getStreamKey stream) (EventStream.getGroupKey stream)
    (Some (RStr (cname c)))
    ∈ issued b (maintainStream m r b).1
  ↔ cidle c > Options.streamTTL (options b).
Proof.
  intros Hr Hnd Hc stream.
  destruct (maintainStream_sent m r b) as [keys ->]. fold stream. rewrite Hr.
  set (K := EventStream.getStreamKey stream). set (G := EventStream.getGroupKey stream).
  set (ttl := Options.streamTTL (options b)).
  rewrite !elem_of_app. split.
  - intros [H|[H|H]].
    + repeat (apply elem_of_cons in H as [H|H]; [discriminate|]). by apply elem_of_nil in H.
    + apply list_elem_of_In, in_flat_map in H as (e & He & Hin).
      apply list_elem_of_In, list_elem_of_fmap in He as (c' & -> & Hc').
      rewrite pruneConsumer_entry in Hin. case_bool_decide as Hidle; [|destruct Hin].
      destruct Hin as [Heq|[]]. injection Heq as Hname.
      assert (c' = c) as ->; [|done].
      clear -Hnd Hc Hc' Hname. induction cs as [|x cs IH]; [by apply elem_of_nil in Hc|].
      apply NoDup_cons in Hnd as [Hx Hnd].
      apply elem_of_cons in Hc as [->|Hc]; apply elem_of_cons in Hc' as [->|Hc'];
        try done; try (by apply IH).
      * exfalso. apply Hx. rewrite <- Hname. by apply list_elem_of_fmap_2.
      * exfalso. apply Hx. rewrite Hname. by apply list_elem_of_fmap_2.
    + case_decide; [|by apply elem_of_nil in H].
      apply elem_of_cons in H as [H|H]; [discriminate|].
      apply list_elem_of_fmap in H as (k & Hk & _). discriminate.
  - intros Hidle. right; left.
    apply list_elem_of_In, in_flat_map. exists (consumerEntry c). split.
    + apply list_elem_of_In, list_elem_of_fmap_2, Hc.
    + rewrite pruneConsumer_entry, bool_decide_true by done. by left.
Qed.

(** *** The [Set] of handlers *)

Lemma Set_delete_length (h : EventHandler) (s : JSSet) :
  length (Set_delete h s) = length s.
Proof.
  induction s as [|e s IH]; [done|]. cbn. case_decide; cbn; [done|]. by rewrite IH.
Qed.

(** Deleting the handler found at index [i] leaves the entries behind
    [i] as they are. *)
Lemma Set_delete_drop (h : EventHandler) (s : JSSet) (i : nat) :
  s !! i = Some (Some h) → drop (S i) (Set_delete h s) = drop (S i) s.
Proof.
  revert i. induction s as [|e s IH]; intros i Hi; [done|].
  cbn [Set_delete]. case_decide as He; [done|].
  destruct i as [|i]; cbn in Hi.
  - congruence.
  - cbn. apply (IH i Hi).
Qed.

Lemma Set_size_add (h : EventHandler) (s : JSSet) :
  (0 < Set_size (Set_add h s))%nat.
Proof.
  unfold Set_add, Set_has, Set_size, Set_values. case_bool_decide as Hin.
  - induction s as [|e s IH]; [by apply elem_of_nil in Hin|].
    apply elem_of_cons in Hin as [<-|Hin]; cbn; [lia|].
    destruct e; cbn; [lia|]. by apply IH.
  - rewrite omap_app, length_app. cbn. lia.
Qed.

Lemma Set_add_values (h : EventHandler) (s : JSSet) :
  h ∈ Set_values (Set_add h s).
Proof.
  unfold Set_add, Set_has, Set_values. case_bool_decide as Hin.
  - apply list_elem_of_omap. by exists (Some h).
  - rewrite omap_app. apply elem_of_app. right. cbn. by left.
Qed.

(** *** The subscriber table *)

Lemma tableInv_nonEmptyTopics (b : EventBus) : tableInv b → nonEmptyTopics b.
Proof.
  intros [Ha _] type. unfold subscribers.
  destruct (handlers b !! type) as [r|] eqn:E; [|done].
  specialize (Ha type r E). unfold Set_size in Ha.
  intros [= Hnil]. rewrite Hnil in Ha. cbn in Ha. lia.
Qed.

Lemma tableInv_constructor (o : EventBusOptions.t) (uuid : string) :
  tableInv (constructor o uuid).
Proof. split; cbn; intros *; by rewrite lookup_empty. Qed.

Lemma tableInv_ref_valid (b : EventBus) (type : string) (r : nat) :
  tableInv b → handlers b !! type = Some r → (r < length (sets b))%nat.
Proof.
  intros [Ha _] E. specialize (Ha type r E).
  destruct (sets b !! r) as [s|] eqn:Es; [by eapply lookup_lt_Some|].
  cbn in Ha. lia.
Qed.

Lemma tableInv_on (type : string) (h : EventHandler) (b : EventBus) :
  tableInv b → tableInv (on type h b).
Proof.
  intros Hinv. pose proof Hinv as [Ha Hb]. unfold on.
  destruct (handlers b !! type) as [r|] eqn:E; cbn.
  - rewrite E. split; cbn; [|exact Hb].
    intros t' r' E'. destruct (decide (r = r')) as [<-|Hne].
    + rewrite list_lookup_alter_eq.
      specialize (Ha _ _ E).
      destruct (sets b !! r) as [s|] eqn:Es; cbn in *; [apply Set_size_add|lia].
    + rewrite list_lookup_alter_ne by done. by eapply Ha.
  - rewrite lookup_insert_eq. split; cbn.
    + intros t' r'. rewrite lookup_insert. case_decide as Ht.
      * intros [= <-]. rewrite list_lookup_alter_eq.
        rewrite lookup_app_r, Nat.sub_diag by done. cbn. apply Set_size_add.
      * intros E'. pose proof (tableInv_ref_valid _ _ _ Hinv E') as Hlt.
        rewrite list_lookup_alter_ne by lia. rewrite lookup_app_l by done.
        by eapply Ha.
    + intros t1 t2 r'. rewrite !lookup_insert.
      repeat case_decide; subst; try done.
      * intros [= <-] E'. pose proof (tableInv_ref_valid _ _ _ Hinv E'). lia.
      * intros E' [= <-]. pose proof (tableInv_ref_valid _ _ _ Hinv E'). lia.
      * apply Hb.
Qed.

Lemma tableInv_off (type : string) (h : EventHandler) (b : EventBus) :
  tableInv b → tableInv (off type h b).
Proof.
  intros Hinv. pose proof Hinv as [Ha Hb]. unfold off.
  destruct (handlers b !! type) as [r|] eqn:E; [|done]. cbn.
  case_decide as Hsz; split; cbn.
  - intros t' r'. rewrite lookup_delete. case_decide as Ht; [done|].
    intros E'. rewrite list_lookup_alter_ne; [by eapply Ha|].
    intros <-. apply Ht. by eapply Hb.
  - intros t1 t2 r'. rewrite !lookup_delete. repeat case_decide; try done. apply Hb.
  - intros t' r' E'. destruct (decide (r = r')) as [<-|Hne].
    + lia.
    + rewrite list_lookup_alter_ne by done. by eapply Ha.
  - exact Hb.
Qed.

Lemma tableInv_once (type : string) (f : nat) (b : EventBus) :
  tableInv b → tableInv (once type f b).
Proof. intros Hinv. unfold once. by apply tableInv_on. Qed.

(** *** Dispatch *)

Lemma off_calls (type : string) (h : EventHandler) (b : EventBus) :
  calls (off type h b) = calls b.
Proof.
  unfold off. destruct (handlers b !! type); [|done]. by case_decide.
Qed.

Lemma off_sets (type : string) (h : EventHandler) (b : EventBus) :
  sets (off type h b)
  = match handlers b !! type with
    | Some r => alter (Set_delete h) r (sets b)
    | None => sets b
    end.
Proof.
  unfold off. destruct (handlers b !! type); [|done]. by case_decide.
Qed.

Lemma invoke_outcome (h : EventHandler) (message : ReceivedEventMessage) (b : EventBus) :
  (invoke h message b).2 = if throws (userFn h) message then Thrown else Returned.
Proof. by destruct h. Qed.

Lemma invoke_calls (h : EventHandler) (message : ReceivedEventMessage) (b : EventBus) :
  calls (invoke h message b).1 = calls b ++ [(userFn h, message)].
Proof. destruct h; cbn; [done|]. by rewrite off_calls. Qed.

Lemma invoke_sets (h : EventHandler) (message : ReceivedEventMessage) (b : EventBus) :
  sets (invoke h message b).1 = sets b
  ∨ ∃ r, sets (invoke h message b).1 = alter (Set_delete h) r (sets b).
Proof.
  destruct h as [f|w type f]; cbn; [by left|].
  rewrite off_sets. cbn. destruct (handlers b !! type) as [r|]; [right; by exists r|by left].
Qed.

(** An invocation changes no [Set] object's number of entries. *)
Lemma invoke_length (h : EventHandler) (message : ReceivedEventMessage)
    (b : EventBus) (r : nat) :
  length (default [] (sets (invoke h message b).1 !! r))
  = length (default [] (sets b !! r)).
Proof.
  destruct (invoke_sets h message b) as [->|[r' ->]]; [done|].
  destruct (decide (r' = r)) as [->|Hne].
  - rewrite list_lookup_alter_eq. destruct (sets b !! r); cbn; [|done].
    apply Set_delete_length.
  - by rewrite list_lookup_alter_ne.
Qed.

(** Invoking the handler found at index [i] of the [Set] object [r]
    leaves the entries of [r] behind [i] as they are. *)
Lemma invoke_drop (h : EventHandler) (message : ReceivedEventMessage)
    (b : EventBus) (r i : nat) (s : JSSet) :
  sets b !! r = Some s → s !! i = Some (Some h) →
  ∃ s', sets (invoke h message b).1 !! r = Some s' ∧ drop (S i) s' = drop (S i) s.
Proof.
  intros Hs Hi. destruct (invoke_sets h message b) as [->|[r' ->]]; [by exists s|].
  destruct (decide (r' = r)) as [->|Hne].
  - rewrite list_lookup_alter_eq, Hs. cbn. eexists; split; [done|].
    by apply Set_delete_drop.
  - rewrite list_lookup_alter_ne by done. by exists s.
Qed.

Lemma tableInv_invoke (h : EventHandler) (message : ReceivedEventMessage) (b : EventBus) :
  tableInv b → tableInv (invoke h message b).1.
Proof.
  intros Hinv. destruct h as [f|w type f]; cbn; [exact Hinv|].
  apply tableInv_off. exact Hinv.
Qed.

(** The iteration over the handlers ends: the fuel [handleMessage] gives
    is enough. *)
Lemma forOfHandlers_total (fuel r i : nat) (message : ReceivedEventMessage)
    (b : EventBus) :
  (length (default [] (sets b !! r)) - i < fuel)%nat →
  is_Some (forOfHandlers fuel r i message b).
Proof.
  revert i b. induction fuel as [|fuel IH]; intros i b Hlt; [lia|]. cbn.
  destruct (sets b !! r) as [s|] eqn:Es; cbn; [|done].
  destruct (s !! i) as [[h|]|] eqn:Ei; [| |done].
  - pose proof (invoke_length h message b r) as Hlen.
    destruct (invoke h message b) as [b' []] eqn:Einv; [|done].
    apply IH. cbn in Hlen. rewrite Hlen, Es. cbn in *.
    apply lookup_lt_Some in Ei. lia.
  - apply IH. rewrite Es. cbn in *. apply lookup_lt_Some in Ei. lia.
Qed.

Theorem handleMessage_total (message : ReceivedEventMessage) (b : EventBus) :
  is_Some (handleMessage message b).
Proof.
  unfold handleMessage.
  match goal with |- context [handlers ?x !! _] => destruct (handlers x !! event message) end;
    [|done].
  apply forOfHandlers_total. lia.
Qed.

Lemma tableInv_forOfHandlers (fuel r i : nat) (message : ReceivedEventMessage)
    (b b' : EventBus) (out : outcome) :
  tableInv b → forOfHandlers fuel r i message b = Some (b', out) → tableInv b'.
Proof.
  revert i b. induction fuel as [|fuel IH]; intros i b Hinv; [done|]. cbn.
  destruct (sets b !! r ≫= (.!! i)) as [[h|]|]; [| |by intros [= <- _]].
  - pose proof (tableInv_invoke h message b Hinv) as Hinv'.
    destruct (invoke h message b) as [b1 []]; [|by intros [= <- _]].
    by apply IH.
  - by apply IH.
Qed.

Lemma tableInv_handleMessage (message : ReceivedEventMessage) (b b' : EventBus)
    (out : outcome) :
  tableInv b → handleMessage message b = Some (b', out) → tableInv b'.
Proof.
  intros Hinv. unfold handleMessage.
  assert (tableInv (if Options.debug (options b)
                    then consoleLog (LogMessage message) b else b)) as Hinv1
    by (by destruct (Options.debug (options b))).
  revert Hinv1.
  generalize (if Options.debug (options b) then consoleLog (LogMessage message) b else b).
  intros b1 Hinv1. destruct (handlers b1 !! event message); [|by intros [= <- _]].
  by apply tableInv_forOfHandlers.
Qed.

Lemma tableInv_step (c : Call) (b : EventBus) : tableInv b → tableInv (step c b).
Proof.
  intros Hinv. destruct c as [type f|type f|type f|message]; cbn.
  - by apply tableInv_on.
  - by apply tableInv_off.
  - by apply tableInv_once.
  - destruct (handleMessage message b) as [[b' out]|] eqn:E; [|done].
    by eapply tableInv_handleMessage.
Qed.

Lemma tableInv_run (cs : list Call) (b : EventBus) : tableInv b → tableInv (run cs b).
Proof.
  revert b. induction cs as [|c cs IH]; intros b Hinv; [done|].
  cbn. apply IH. by apply tableInv_step.
Qed.

(** C10: starting from the table of a new instance, after every sequence
    of calls of [on], [off] and [once] (and of deliveries, which run the
    wrappers of [once]), no topic of the table has an empty handler set. *)
Theorem handler_sets_never_empty (o : EventBusOptions.t) (uuid : string)
    (cs : list Call) :
  nonEmptyTopics (run cs (constructor o uuid)).
Proof.
  apply tableInv_nonEmptyTopics, tableInv_run, tableInv_constructor.
Qed.

(** The iteration from index [i] on, when the handlers still ahead are
    [pre], then [h], then [post], the handlers of [pre] return and [h]
    throws: the handlers of [pre] and [h] are invoked in order, the
    exception leaves the loop, and no handler of [post] is invoked. *)
Lemma forOfHandlers_throw (message : ReceivedEventMessage) (r : nat)
    (h : EventHandler) (post : list EventHandler) (rest : JSSet) :
  ∀ (pre : list EventHandler) (fuel i : nat) (b : EventBus) (s : JSSet),
    sets b !! r = Some s →
    drop i s = rest →
    Set_values rest = pre ++ h :: post →
    Forall (fun h' => throws (userFn h') message = false) pre →
    throws (userFn h) message = true →
    (length rest < fuel)%nat →
    ∃ b', forOfHandlers fuel r i message b = Some (b', Thrown)
          ∧ calls b' = calls b ++ map (fun h' => (userFn h', message)) (pre ++ [h]).
Proof.
  induction rest as [|e rest IH]; intros pre fuel i b s Hs Hdrop Hvals Hpre Hh Hfuel.
  - cbn in Hvals. by destruct pre.
  - destruct fuel as [|fuel]; [lia|]. cbn in Hfuel.
    assert (s !! i = Some e) as Hi.
    { rewrite <- (Nat.add_0_r i), <- lookup_drop, Hdrop. done. }
    assert (drop (S i) s = rest) as Hdrop'.
    { erewrite drop_S in Hdrop by exact Hi. congruence. }
    cbn [forOfHandlers]. rewrite Hs. cbn [mbind option_bind]. rewrite Hi.
    destruct e as [h0|].
    + pose proof (invoke_outcome h0 message b) as Hout.
      pose proof (invoke_calls h0 message b) as Hcalls.
      destruct (invoke_drop h0 message b r i s Hs Hi) as (s' & Hs' & Hd').
      destruct (invoke h0 message b) as [b1 out]. cbn in Hout, Hcalls, Hs'. subst out.
      cbn in Hvals. destruct pre as [|p pre]; cbn in Hvals; injection Hvals as -> Hvals.
      * rewrite Hh. exists b1. split; [done|]. by rewrite Hcalls.
      * apply Forall_cons in Hpre as [Hp Hpre]. rewrite Hp.
        destruct (IH pre fuel (S i) b1 s' Hs') as (b' & Hrun & Hc);
          [congruence|done|done|done|lia|].
        exists b'. split; [done|]. rewrite Hc, Hcalls. cbn. by rewrite <- app_assoc.
    + cbn in Hvals.
      apply (IH pre fuel (S i) b s Hs); [done|done|done|done|lia].
Qed.

Lemma handleMessage_throw (message : ReceivedEventMessage) (b : EventBus)
    (pre post : list EventHandler) (h : EventHandler) :
  subscribers (event message) b = Some (pre ++ h :: post) →
  Forall (fun h' => throws (userFn h') message = false) pre →
  throws (userFn h) message = true →
  ∃ b', handleMessage message b = Some (b', Thrown)
        ∧ calls b' = calls b ++ map (fun h' => (userFn h', message)) (pre ++ [h]).
Proof.
  intros Hsub Hpre Hh. unfold handleMessage, subscribers in *.
  set (b1 := if Options.debug (options b) then consoleLog (LogMessage message) b else b).
  assert (handlers b1 = handlers b ∧ sets b1 = sets b ∧ calls b1 = calls b)
    as (Eh & Es & Ec) by (subst b1; by destruct (Options.debug (options b))).
  rewrite Eh, Es, <- Ec.
  destruct (handlers b !! event message) as [r|]; [|done].
  injection Hsub as Hsub.
  destruct (sets b !! r) as [s|] eqn:Esr; cbn in Hsub; [|by destruct pre].
  cbn [default]. rewrite <- Es in Esr.
  eapply (forOfHandlers_throw message r h post s pre _ 0%nat b1 s); try done.
  unfold id. lia.
Qed.

(** C2 (amended): when the first record of a stream's reply decodes to a
    message whose topic has the handlers [pre], [h], [post] in this
    order, the handlers of [pre] return and [h] throws or rejects, then
    the handlers of [pre] and [h] are invoked in order, no handler of
    [post] is invoked, the error is logged and the record is still
    acked. *)
Theorem handler_error_skips_rest_but_acks (s : EventStream.t) (b : EventBus)
    (key messageId field value : string) (more : list string)
    (records : list StreamRecord) (message : ReceivedEventMessage)
    (pre post : list EventHandler) (h : EventHandler) :
  EJSON_parse value = Some message →
  subscribers (event message) b = Some (pre ++ h :: post) →
  Forall (fun h' => throws (userFn h') message = false) pre →
  throws (userFn h) message = true →
  ∃ s' b',
    EventStream.forBody EJSON_parse handleMessage
      (key, (messageId, field :: value :: more) :: records) (s, b) = Some (s', b')
    ∧ calls b' = calls b ++ map (fun h' => (userFn h', message)) (pre ++ [h])
    ∧ EventStream.sent s'
      = EventStream.sent s
        ++ [XACK (EventStream.getStreamKey s) (EventStream.getGroupKey s) messageId]
    ∧ EventStream.errors s' = S (EventStream.errors s).
Proof.
  intros Hparse Hsub Hpre Hh.
  destruct (handleMessage_throw message b pre post h Hsub Hpre Hh) as (b' & Hrun & Hc).
  eexists _, b'. unfold EventStream.forBody, EventStream.tryHandle. cbn.
  rewrite Hparse. cbn. rewrite Hrun. cbn. done.
Qed.

(** *** The reader loop *)

(** The first record of an element of the reply is dispatched (when it
    decodes) and acked whatever the dispatch did. *)
Lemma first_record_acked (s : EventStream.t) (b : EventBus) (key messageId : string)
    (fields : list string) (records : list StreamRecord) :
  ∃ s' b',
    EventStream.forBody EJSON_parse handleMessage
      (key, (messageId, fields) :: records) (s, b) = Some (s', b')
    ∧ EventStream.sent s'
      = EventStream.sent s
        ++ [XACK (EventStream.getStreamKey s) (EventStream.getGroupKey s) messageId].
Proof.
  unfold EventStream.forBody, EventStream.tryHandle. cbn.
  destruct (fields !! 1%nat ≫= EJSON_parse) as [message|]; cbn; [|by eexists _, _].
  destruct (handleMessage_total message b) as [[b' out] ->].
  destruct out; cbn; by eexists _, _.
Qed.

(** The body of the loop over the reply looks at the first record of an
    element only: the records behind it change nothing. *)
Lemma forBody_first_record_only {E Msg : Type} (parse : string → option Msg)
    (handler : Msg → E → option (E * outcome)) (key : string) (record : StreamRecord)
    (records : list StreamRecord) (st : EventStream.t * E) :
  EventStream.forBody parse handler (key, record :: records) st
  = EventStream.forBody parse handler (key, [record]) st.
Proof. reflexivity. Qed.


(** *** More on the [Set] of handlers *)

Lemma Set_has_values (h : EventHandler) (s : JSSet) :
  Some h ∈ s ↔ h ∈ Set_values s.
Proof.
  unfold Set_values. rewrite list_elem_of_omap. split.
  - intros H. by exists (Some h).
  - intros (x & Hx & Heq). cbn in Heq. by subst.
Qed.

Lemma Set_values_add (h : EventHandler) (s : JSSet) :
  Set_values (Set_add h s)
  = if decide (h ∈ Set_values s) then Set_values s else Set_values s ++ [h].
Proof.
  unfold Set_add, Set_has. case_bool_decide as Hin; case_decide as Hin'; try done.
  - by apply Set_has_values in Hin.
  - by apply Set_has_values in Hin'.
  - unfold Set_values. by rewrite omap_app.
Qed.

Lemma Set_add_idemp (h : EventHandler) (s : JSSet) :
  Set_add h (Set_add h s) = Set_add h s.
Proof.
  unfold Set_add at 1. unfold Set_has. rewrite bool_decide_true; [done|].
  apply Set_has_values, Set_add_values.
Qed.

Lemma Set_delete_absent (h : EventHandler) (s : JSSet) :
  h ∉ Set_values s → Set_delete h s = s.
Proof.
  rewrite <- Set_has_values.
  induction s as [|e s IH]; intros Hin; [done|]. cbn.
  apply not_elem_of_cons in Hin as [Hne Hin]. rewrite decide_False by done.
  by rewrite IH.
Qed.

Lemma filter_ne_absent (h : EventHandler) (l : list EventHandler) :
  h ∉ l → filter (.≠ h) l = l.
Proof.
  induction l as [|x l IH]; intros Hin; [done|].
  apply not_elem_of_cons in Hin as [Hne Hin].
  rewrite filter_cons_True by done. by rewrite IH.
Qed.

(** Deleting from a [Set] removes the handler and keeps the others in
    their order. *)
Lemma Set_values_delete (h : EventHandler) (s : JSSet) :
  NoDup (Set_values s) →
  Set_values (Set_delete h s) = filter (.≠ h) (Set_values s).
Proof.
  unfold Set_values. induction s as [|e s IH]; intros Hnd; [done|].
  cbn [Set_delete]. case_decide as He.
  - subst e. change (omap id (Some h :: s)) with (h :: omap id s) in *.
    change (omap id (None :: s)) with (omap id s).
    apply NoDup_cons in Hnd as [Hh Hnd].
    rewrite filter_cons_False by (intros Hc; by apply Hc).
    by rewrite filter_ne_absent.
  - destruct e as [h0|].
    + change (omap id (Some h0 :: ?x)) with (h0 :: omap id x) in *.
      change (omap id (Some h0 :: Set_delete h s)) with (h0 :: omap id (Set_delete h s)).
      apply NoDup_cons in Hnd as [Hh Hnd].
      rewrite filter_cons_True by congruence. by rewrite IH.
    + by apply IH.
Qed.

Lemma Set_delete_sublist (h : EventHandler) (s : JSSet) :
  Set_values (Set_delete h s) `sublist_of` Set_values s.
Proof.
  unfold Set_values. induction s as [|e s IH]; [done|].
  cbn [Set_delete]. case_decide as He.
  - subst e. cbn. by apply sublist_cons.
  - destruct e as [h0|]; cbn; [|done]. by apply sublist_skip.
Qed.

(** *** The subscriber table, seen through [subscribers] *)

Lemma setsNoDup_constructor (o : EventBusOptions.t) (uuid : string) :
  setsNoDup (constructor o uuid).
Proof. intros r s. cbn. by rewrite lookup_nil. Qed.

Lemma setsNoDup_alter (f : JSSet → JSSet) (r : nat) (b : EventBus) :
  (∀ s, NoDup (Set_values s) → NoDup (Set_values (f s))) →
  setsNoDup b → setsNoDup (set_sets (alter f r (sets b)) b).
Proof.
  intros Hf Hnd r' s'. cbn. destruct (decide (r = r')) as [<-|Hne].
  - rewrite list_lookup_alter_eq. destruct (sets b !! r) as [s|] eqn:Es; [|done].
    intros [= <-]. apply Hf. by eapply Hnd.
  - rewrite list_lookup_alter_ne by done. apply Hnd.
Qed.

Lemma Set_add_NoDup (h : EventHandler) (s : JSSet) :
  NoDup (Set_values s) → NoDup (Set_values (Set_add h s)).
Proof.
  intros Hnd. rewrite Set_values_add. case_decide as Hin; [done|].
  apply NoDup_app. split; [done|]. split; [|apply NoDup_singleton].
  intros x Hx Hx'. apply list_elem_of_singleton in Hx'. by subst.
Qed.

Lemma setsNoDup_on (type : string) (h : EventHandler) (b : EventBus) :
  setsNoDup b → setsNoDup (on type h b).
Proof.
  intros Hnd. unfold on. destruct (handlers b !! type) as [r|] eqn:E; cbn.
  - rewrite E. apply setsNoDup_alter; [apply Set_add_NoDup|done].
  - rewrite lookup_insert_eq.
    apply (setsNoDup_alter (Set_add h) (length (sets b))
             (set_handlers (<[type:=length (sets b)]> (handlers b))
                (set_sets (sets b ++ [[]]) b))); [apply Set_add_NoDup|].
    intros r s. cbn. intros Hs. apply lookup_app_Some in Hs as [Hs|[_ Hs]].
    + by eapply Hnd.
    + destruct (r - length (sets b))%nat; cbn in Hs; [|done].
      injection Hs as <-. apply NoDup_nil_2.
Qed.

Lemma setsNoDup_off (type : string) (h : EventHandler) (b : EventBus) :
  setsNoDup b → setsNoDup (off type h b).
Proof.
  intros Hnd. unfold off. destruct (handlers b !! type) as [r|]; [|done].
  assert (setsNoDup (set_sets (alter (Set_delete h) r (sets b)) b)) as Hnd'.
  { apply setsNoDup_alter; [|done]. intros s Hs.
    eapply sublist_NoDup; [done|apply Set_delete_sublist]. }
  by case_decide.
Qed.

(** An invariant of the bus that [called], [off] and [consoleLog] keep is
    kept by a dispatch. *)
Lemma invoke_inv (P : EventBus → Prop) (h : EventHandler)
    (message : ReceivedEventMessage) (b : EventBus) :
  (∀ f m b, P b → P (called f m b)) →
  (∀ w t f b, P b → P (off t (OnceWrapper w t f) b)) →
  P b → P (invoke h message b).1.
Proof.
  intros Hc Ho Hb. destruct h as [f|w t f]; cbn; [by apply Hc|]. by apply Ho, Hc.
Qed.

Lemma forOfHandlers_inv (P : EventBus → Prop) (fuel r i : nat)
    (message : ReceivedEventMessage) (b b' : EventBus) (out : outcome) :
  (∀ f m b, P b → P (called f m b)) →
  (∀ w t f b, P b → P (off t (OnceWrapper w t f) b)) →
  P b → forOfHandlers fuel r i message b = Some (b', out) → P b'.
Proof.
  intros Hc Ho. revert i b. induction fuel as [|fuel IH]; intros i b Hb; [done|]. cbn.
  destruct (sets b !! r ≫= (.!! i)) as [[h|]|]; [| |by intros [= <- _]].
  - pose proof (invoke_inv P h message b Hc Ho Hb) as Hb'.
    destruct (invoke h message b) as [b1 []]; [|by intros [= <- _]].
    by apply IH.
  - by apply IH.
Qed.

Lemma handleMessage_inv (P : EventBus → Prop) (message : ReceivedEventMessage)
    (b b' : EventBus) (out : outcome) :
  (∀ f m b, P b → P (called f m b)) →
  (∀ w t f b, P b → P (off t (OnceWrapper w t f) b)) →
  (∀ x b, P b → P (consoleLog x b)) →
  P b → handleMessage message b = Some (b', out) → P b'.
Proof.
  intros Hc Ho Hl Hb. unfold handleMessage.
  assert (P (if Options.debug (options b)
             then consoleLog (LogMessage message) b else b)) as Hb1
    by (destruct (Options.debug (options b)); [by apply Hl|done]).
  revert Hb1.
  generalize (if Options.debug (options b) then consoleLog (LogMessage message) b else b).
  intros b1 Hb1. destruct (handlers b1 !! event message); [|by intros [= <- _]].
  by apply forOfHandlers_inv.
Qed.

Lemma setsNoDup_step (c : Call) (b : EventBus) : setsNoDup b → setsNoDup (step c b).
Proof.
  intros Hnd. destruct c as [type f|type f|type f|message]; cbn.
  - by apply setsNoDup_on.
  - by apply setsNoDup_off.
  - unfold once. by apply setsNoDup_on.
  - destruct (handleMessage message b) as [[b' out]|] eqn:E; [|done].
    eapply (handleMessage_inv setsNoDup); [| | |exact Hnd|exact E]; try done.
    intros w t f b0. apply setsNoDup_off.
Qed.

Lemma setsNoDup_run (cs : list Call) (b : EventBus) : setsNoDup b → setsNoDup (run cs b).
Proof.
  revert b. induction cs as [|c cs IH]; intros b Hnd; [done|].
  cbn. apply IH. by apply setsNoDup_step.
Qed.

(** In every state of the table reached from a new instance by calls of
    [on], [off], [once] and deliveries, the handler objects of a topic are
    pairwise distinct: no function object is in a topic's list twice.  (A
    function given to [once] twice is wrapped twice, and the two wrappers
    are two objects.) *)
Theorem subscribers_distinct (o : EventBusOptions.t) (uuid : string) (cs : list Call)
    (type : string) :
  NoDup (default [] (subscribers type (run cs (constructor o uuid)))).
Proof.
  pose proof (setsNoDup_run cs _ (setsNoDup_constructor o uuid)) as Hnd.
  unfold subscribers. destruct (handlers _ !! type) as [r|]; cbn; [|apply NoDup_nil_2].
  destruct (sets _ !! r) as [s|] eqn:Es; cbn; [|apply NoDup_nil_2].
  by eapply Hnd.
Qed.

Lemma tableInv_lookup (b : EventBus) (type : string) (r : nat) :
  tableInv b → handlers b !! type = Some r → ∃ s, sets b !! r = Some s.
Proof.
  intros Hinv E. apply lookup_lt_is_Some. by eapply tableInv_ref_valid.
Qed.

Lemma on_appends (type : string) (h : EventHandler) (b : EventBus) :
  tableInv b →
  subscribers type (on type h b)
  = let hs := default [] (subscribers type b) in
    Some (if decide (h ∈ hs) then hs else hs ++ [h]).
Proof.
  intros Hinv. unfold subscribers, on.
  destruct (handlers b !! type) as [r|] eqn:E; cbn.
  - rewrite E. cbn. rewrite E. destruct (tableInv_lookup b type r Hinv E) as [s Hs].
    rewrite list_lookup_alter_eq, Hs. cbn. by rewrite Set_values_add.
  - rewrite lookup_insert_eq. cbn. rewrite lookup_insert_eq.
    rewrite list_lookup_alter_eq, lookup_app_r, Nat.sub_diag by done. cbn.
    by rewrite Set_values_add.
Qed.

(** [on] appends the handler to the topic's list, unless the list has it
    already, and then changes nothing. *)
Theorem subscribers_on (type : string) (h : EventHandler) (b : EventBus) :
  tableInv b →
  subscribers type (on type h b)
  = let hs := default [] (subscribers type b) in
    Some (if decide (h ∈ hs) then hs else hs ++ [h]).
Proof. exact (on_appends type h b). Qed.

(** [on] leaves the lists of the other topics as they are. *)
Theorem subscribers_on_other (type type' : string) (h : EventHandler) (b : EventBus) :
  tableInv b → type' ≠ type →
  subscribers type' (on type h b) = subscribers type' b.
Proof.
  intros Hinv Hne. pose proof Hinv as [_ Hinj]. unfold subscribers, on.
  destruct (handlers b !! type) as [r|] eqn:E; cbn.
  - rewrite E. cbn. destruct (handlers b !! type') as [r'|] eqn:E'; [|done].
    rewrite list_lookup_alter_ne; [done|]. intros <-. apply Hne. by eapply Hinj.
  - rewrite lookup_insert_eq. cbn. rewrite lookup_insert_ne by done.
    destruct (handlers b !! type') as [r'|] eqn:E'; [|done].
    pose proof (tableInv_ref_valid _ _ _ Hinv E') as Hlt.
    rewrite list_lookup_alter_ne by lia. by rewrite lookup_app_l.
Qed.

Lemma off_filters (type : string) (h : EventHandler) (b : EventBus) :
  tableInv b → setsNoDup b →
  subscribers type (off type h b)
  = match subscribers type b with
    | Some hs => if decide (filter (.≠ h) hs = []) then None else Some (filter (.≠ h) hs)
    | None => None
    end.
Proof.
  intros Hinv Hnd. unfold subscribers, off.
  destruct (handlers b !! type) as [r|] eqn:E; [|by rewrite E].
  destruct (tableInv_lookup b type r Hinv E) as [s Hs]. cbn.
  rewrite list_lookup_alter_eq, Hs. cbn. unfold Set_size.
  rewrite Set_values_delete by (by eapply Hnd).
  case_decide as Hlen; case_decide as Hnil; cbn.
  - by rewrite lookup_delete_eq.
  - by apply length_zero_iff_nil in Hlen.
  - exfalso. apply Hlen. unfold Set_values in *. by rewrite Hnil.
  - rewrite E, list_lookup_alter_eq, Hs. cbn.
    by rewrite Set_values_delete by (by eapply Hnd).
Qed.

(** [off] removes the handler from the topic's list and keeps the others
    in their order; the entry of the topic goes with its last handler. *)
Theorem subscribers_off (type : string) (h : EventHandler) (b : EventBus) :
  tableInv b → setsNoDup b →
  subscribers type (off type h b)
  = match subscribers type b with
    | Some hs => if decide (filter (.≠ h) hs = []) then None else Some (filter (.≠ h) hs)
    | None => None
    end.
Proof. exact (off_filters type h b). Qed.

(** [off] leaves the lists of the other topics as they are. *)
Theorem subscribers_off_other (type type' : string) (h : EventHandler) (b : EventBus) :
  tableInv b → type' ≠ type →
  subscribers type' (off type h b) = subscribers type' b.
Proof.
  intros Hinv Hne. pose proof Hinv as [_ Hinj]. unfold subscribers, off.
  destruct (handlers b !! type) as [r|] eqn:E; [|done]. cbn.
  assert (∀ r', handlers b !! type' = Some r' →
                alter (Set_delete h) r (sets b) !! r' = sets b !! r') as Hother.
  { intros r' E'. rewrite list_lookup_alter_ne; [done|].
    intros <-. apply Hne. by eapply Hinj. }
  case_decide; cbn; rewrite ?lookup_delete_ne by done;
    (destruct (handlers b !! type') as [r'|] eqn:E'; [|done]); by rewrite Hother.
Qed.

(** Subscribing the same handler to the same topic twice is subscribing it
    once. *)
Theorem on_idempotent (type : string) (h : EventHandler) (b : EventBus) :
  on type h (on type h b) = on type h b.
Proof.
  assert (∀ (r : nat) (l : list JSSet),
            alter (Set_add h) r (alter (Set_add h) r l) = alter (Set_add h) r l) as Halt.
  { intros r l. rewrite list_alter_alter_eq. apply list_alter_ext; [|done].
    intros s _. apply Set_add_idemp. }
  unfold on. destruct (handlers b !! type) as [r|] eqn:E; cbn.
  - repeat (rewrite ?E; cbn). unfold set_sets. cbn. by rewrite Halt.
  - repeat (rewrite ?lookup_insert_eq; cbn). unfold set_sets. cbn. by rewrite Halt.
Qed.

(** Unsubscribing a handler that the topic does not have changes nothing. *)
Theorem off_unknown_handler (type : string) (h : EventHandler) (b : EventBus) :
  tableInv b →
  h ∉ default [] (subscribers type b) →
  off type h b = b.
Proof.
  intros Hinv Hin. pose proof Hinv as [Hne _]. unfold off, subscribers in *.
  destruct (handlers b !! type) as [r|] eqn:E; [|done]. cbn in Hin.
  destruct (tableInv_lookup b type r Hinv E) as [s Hs]. rewrite Hs in Hin. cbn in Hin.
  assert (alter (Set_delete h) r (sets b) = sets b) as Halt.
  { apply list_eq. intros j. destruct (decide (r = j)) as [<-|Hj].
    - rewrite list_lookup_alter_eq, Hs. cbn. by rewrite Set_delete_absent.
    - by rewrite list_lookup_alter_ne. }
  cbn. rewrite Halt. specialize (Hne _ _ E). rewrite decide_False by lia.
  by destruct b.
Qed.

(** *** Dispatch over the live [Set] and over a snapshot *)

Lemma forOfHandlers_snapshot (message : ReceivedEventMessage) (r : nat) (rest : JSSet) :
  ∀ (fuel i : nat) (b : EventBus) (s : JSSet),
    sets b !! r = Some s →
    drop i s = rest →
    (length rest < fuel)%nat →
    forOfHandlers fuel r i message b = Some (dispatch (Set_values rest) message b).
Proof.
  induction rest as [|e rest IH]; intros fuel i b s Hs Hdrop Hfuel.
  - destruct fuel as [|fuel]; [cbn in Hfuel; lia|]. cbn [forOfHandlers].
    rewrite Hs. cbn [mbind option_bind].
    assert (s !! i = None) as ->; [|done].
    apply lookup_ge_None. apply (f_equal length) in Hdrop.
    rewrite length_drop in Hdrop. cbn in Hdrop. lia.
  - destruct fuel as [|fuel]; [lia|]. cbn in Hfuel.
    assert (s !! i = Some e) as Hi.
    { rewrite <- (Nat.add_0_r i), <- lookup_drop, Hdrop. done. }
    assert (drop (S i) s = rest) as Hdrop'.
    { erewrite drop_S in Hdrop by exact Hi. congruence. }
    cbn [forOfHandlers]. rewrite Hs. cbn [mbind option_bind]. rewrite Hi.
    destruct e as [h0|].
    + change (Set_values (Some h0 :: rest)) with (h0 :: Set_values rest).
      cbn [dispatch].
      destruct (invoke_drop h0 message b r i s Hs Hi) as (s' & Hs' & Hd').
      destruct (invoke h0 message b) as [b1 []]; [|done].
      apply (IH fuel (S i) b1 s' Hs'); [congruence|lia].
    + change (Set_values (None :: rest)) with (Set_values rest).
      apply (IH fuel (S i) b s Hs); [done|lia].
Qed.

Lemma dispatch_refines (message : ReceivedEventMessage) (b : EventBus) :
  handleMessage message b
  = Some (dispatch (default [] (subscribers (event message) b)) message
            (logged message b)).
Proof.
  unfold handleMessage, subscribers. fold (logged message b).
  assert (handlers (logged message b) = handlers b ∧ sets (logged message b) = sets b)
    as [-> Es] by (unfold logged; by destruct (Options.debug (options b))).
  destruct (handlers b !! event message) as [r|]; [|done]. rewrite Es.
  destruct (sets b !! r) as [s|] eqn:Esr; cbn [default from_option].
  - rewrite <- Es in Esr.
    rewrite (forOfHandlers_snapshot message r s _ 0%nat _ s Esr); [done|done|].
    unfold id. lia.
  - cbn. by rewrite Es, Esr.
Qed.

(** The loop of [handleMessage] runs over the [Set] while the wrappers of
    [once] delete themselves from it; it visits exactly the handlers that
    the topic had when the delivery started, in their order. *)
Theorem handleMessage_snapshot (message : ReceivedEventMessage) (b : EventBus) :
  handleMessage message b
  = Some (dispatch (default [] (subscribers (event message) b)) message
            (logged message b)).
Proof. exact (dispatch_refines message b). Qed.

Lemma dispatch_app (l1 l2 : list EventHandler) (message : ReceivedEventMessage)
    (b : EventBus) :
  dispatch (l1 ++ l2) message b
  = match dispatch l1 message b with
    | (b', Thrown) => (b', Thrown)
    | (b', Returned) => dispatch l2 message b'
    end.
Proof.
  revert b. induction l1 as [|h l1 IH]; intros b; [done|]. cbn.
  destruct (invoke h message b) as [b1 []]; [|done]. apply IH.
Qed.

Lemma dispatch_inv (P : EventBus → Prop) (hs : list EventHandler)
    (message : ReceivedEventMessage) (b : EventBus) :
  (∀ f m b, P b → P (called f m b)) →
  (∀ w t f b, P b → P (off t (OnceWrapper w t f) b)) →
  P b → P (dispatch hs message b).1.
Proof.
  intros Hc Ho. revert b. induction hs as [|h hs IH]; intros b Hb; [done|]. cbn.
  pose proof (invoke_inv P h message b Hc Ho Hb) as Hb'.
  destruct (invoke h message b) as [b1 []]; [|done]. by apply IH.
Qed.

Lemma dispatch_all_return (hs : list EventHandler) (message : ReceivedEventMessage)
    (b : EventBus) :
  Forall (fun h => throws (userFn h) message = false) hs →
  (dispatch hs message b).2 = Returned
  ∧ calls (dispatch hs message b).1 = calls b ++ map (fun h => (userFn h, message)) hs.
Proof.
  revert b. induction hs as [|h hs IH]; intros b Hall; cbn.
  - by rewrite app_nil_r.
  - apply Forall_cons in Hall as [Hh Hall].
    pose proof (invoke_outcome h message b) as Hout.
    pose proof (invoke_calls h message b) as Hcalls.
    destruct (invoke h message b) as [b1 out]. cbn in Hout, Hcalls. rewrite Hh in Hout.
    subst out. destruct (IH b1 Hall) as [-> ->]. rewrite Hcalls.
    by rewrite <- app_assoc.
Qed.

Lemma dispatch_returns (message : ReceivedEventMessage) (b : EventBus) :
  Forall (fun h => throws (userFn h) message = false)
    (default [] (subscribers (event message) b)) →
  ∃ b', handleMessage message b = Some (b', Returned)
        ∧ calls b'
          = calls b
            ++ map (fun h => (userFn h, message))
                 (default [] (subscribers (event message) b)).
Proof.
  intros Hall. rewrite dispatch_refines.
  destruct (dispatch_all_return _ message (logged message b) Hall) as [Hout Hcalls].
  destruct (dispatch _ message (logged message b)) as [b' out]. cbn in *. subst out.
  exists b'. split; [done|]. rewrite Hcalls. unfold logged.
  by destruct (Options.debug (options b)).
Qed.

(** When no handler of the topic throws on the message, every handler is
    invoked once, in the order of subscription, and the dispatch returns. *)
Theorem handleMessage_all_return (message : ReceivedEventMessage) (b : EventBus) :
  Forall (fun h => throws (userFn h) message = false)
    (default [] (subscribers (event message) b)) →
  ∃ b', handleMessage message b = Some (b', Returned)
        ∧ calls b'
          = calls b
            ++ map (fun h => (userFn h, message))
                 (default [] (subscribers (event message) b)).
Proof. exact (dispatch_returns message b). Qed.

(** *** What a delivery leaves alone *)

Lemma called_frame (f : nat) (m : ReceivedEventMessage) (b : EventBus) :
  sent (called f m b) = sent b ∧ status (called f m b) = status b
  ∧ streams (called f m b) = streams b ∧ options (called f m b) = options b
  ∧ closures (called f m b) = closures b
  ∧ maintenanceTimer (called f m b) = maintenanceTimer b.
Proof. done. Qed.

Lemma off_frame (type : string) (h : EventHandler) (b : EventBus) :
  sent (off type h b) = sent b ∧ status (off type h b) = status b
  ∧ streams (off type h b) = streams b ∧ options (off type h b) = options b
  ∧ closures (off type h b) = closures b
  ∧ maintenanceTimer (off type h b) = maintenanceTimer b.
Proof. unfold off. destruct (handlers b !! type); [|done]. by case_decide. Qed.

Lemma dispatch_frame (message : ReceivedEventMessage) (b b' : EventBus)
    (out : outcome) :
  handleMessage message b = Some (b', out) →
  sent b' = sent b ∧ status b' = status b ∧ streams b' = streams b
  ∧ options b' = options b ∧ closures b' = closures b
  ∧ maintenanceTimer b' = maintenanceTimer b.
Proof.
  apply (handleMessage_inv
           (fun x => sent x = sent b ∧ status x = status b ∧ streams x = streams b
                     ∧ options x = options b ∧ closures x = closures b
                     ∧ maintenanceTimer x = maintenanceTimer b)); [| | |done].
  - intros f m x H. exact H.
  - intros w t f x (H1 & H2 & H3 & H4 & H5 & H6).
    destruct (off_frame t (OnceWrapper w t f) x) as (-> & -> & -> & -> & -> & ->). done.
  - intros e x H. exact H.
Qed.

Lemma Set_delete_other (h h' : EventHandler) (s : JSSet) :
  h' ≠ h → h' ∈ Set_values s → h' ∈ Set_values (Set_delete h s).
Proof.
  intros Hne. rewrite <- !Set_has_values.
  induction s as [|e s IH]; intros Hin; [done|]. cbn. case_decide as He.
  - subst e. apply elem_of_cons in Hin as [Heq|Hin]; [congruence|].
    apply elem_of_cons. by right.
  - apply elem_of_cons in Hin as [->|Hin]; apply elem_of_cons; [by left|right; by apply IH].
Qed.

Lemma off_subscribers_sublist (t t0 : string) (h : EventHandler) (b : EventBus) :
  default [] (subscribers t (off t0 h b)) `sublist_of` default [] (subscribers t b).
Proof.
  unfold subscribers, off. destruct (handlers b !! t0) as [r0|] eqn:E0; [|done].
  assert (∀ r, Set_values (default [] (alter (Set_delete h) r0 (sets b) !! r))
               `sublist_of` Set_values (default [] (sets b !! r))) as Hsub.
  { intros r. destruct (decide (r0 = r)) as [<-|Hne].
    - rewrite list_lookup_alter_eq. destruct (sets b !! r0); cbn; [|done].
      apply Set_delete_sublist.
    - by rewrite list_lookup_alter_ne. }
  case_decide; cbn.
  - rewrite lookup_delete. case_decide; [apply sublist_nil_l|].
    destruct (handlers b !! t); cbn; [apply Hsub|done].
  - destruct (handlers b !! t); cbn; [apply Hsub|done].
Qed.

Lemma off_keeps_user_handler (t t0 : string) (w f0 f : nat) (b : EventBus) :
  UserFn f ∈ default [] (subscribers t b) →
  UserFn f ∈ default [] (subscribers t (off t0 (OnceWrapper w t0 f0) b)).
Proof.
  unfold subscribers, off. intros Hin.
  destruct (handlers b !! t) as [r|] eqn:E; [|by apply elem_of_nil in Hin].
  cbn in Hin. destruct (sets b !! r) as [s|] eqn:Es; [|by apply elem_of_nil in Hin].
  cbn in Hin.
  destruct (handlers b !! t0) as [r0|] eqn:E0; [|by rewrite E, Es].
  assert (UserFn f ∈ Set_values (default [] (alter (Set_delete (OnceWrapper w t0 f0)) r0
                                               (sets b) !! r))) as Hin'.
  { destruct (decide (r0 = r)) as [->|Hne].
    - rewrite list_lookup_alter_eq, Es. cbn. by apply Set_delete_other.
    - rewrite list_lookup_alter_ne, Es by done. done. }
  case_decide as Hsz; cbn.
  - rewrite lookup_delete. case_decide as Ht.
    + subst t0. exfalso. rewrite E in E0. injection E0 as <-.
      cbn in Hsz. unfold Set_size in Hsz. apply length_zero_iff_nil in Hsz.
      rewrite Hsz in Hin'. by apply elem_of_nil in Hin'.
    + by rewrite E.
  - by rewrite E.
Qed.

Lemma dispatch_monotone (message : ReceivedEventMessage)
    (b b' : EventBus) (out : outcome) (t : string) :
  handleMessage message b = Some (b', out) →
  default [] (subscribers t b') `sublist_of` default [] (subscribers t b)
  ∧ ∀ f, UserFn f ∈ default [] (subscribers t b)
         → UserFn f ∈ default [] (subscribers t b').
Proof.
  intros Hrun. split.
  - revert Hrun.
    apply (handleMessage_inv
             (fun x => default [] (subscribers t x) `sublist_of` default [] (subscribers t b)));
      [done| |done|done].
    intros w t0 f x Hx. etrans; [apply off_subscribers_sublist|exact Hx].
  - intros f Hin. revert Hrun.
    apply (handleMessage_inv (fun x => UserFn f ∈ default [] (subscribers t x)));
      [done| |done|done].
    intros w t0 f0 x Hx. by apply off_keeps_user_handler.
Qed.

(** A delivery adds no handler to any topic and keeps the order of the
    ones it leaves; the handlers subscribed with [on] all stay, only
    wrappers of [once] go. *)
Theorem delivery_only_removes_once_wrappers (message : ReceivedEventMessage)
    (b b' : EventBus) (out : outcome) (t : string) :
  handleMessage message b = Some (b', out) →
  default [] (subscribers t b') `sublist_of` default [] (subscribers t b)
  ∧ ∀ f, UserFn f ∈ default [] (subscribers t b)
         → UserFn f ∈ default [] (subscribers t b').
Proof. exact (dispatch_monotone message b b' out t). Qed.

(** *** [once] *)

Lemma wrappersFresh_constructor (o : EventBusOptions.t) (uuid : string) :
  wrappersFresh (constructor o uuid).
Proof. intros r s w t f. cbn. by rewrite lookup_nil. Qed.

Lemma wrappersFresh_on (type : string) (h : EventHandler) (b : EventBus) :
  (∀ w t f, h = OnceWrapper w t f → (w < closures b)%nat) →
  wrappersFresh b → wrappersFresh (on type h b).
Proof.
  intros Hh Hfresh.
  assert (∀ s w t f, (∀ w t f, OnceWrapper w t f ∈ Set_values s → (w < closures b)%nat) →
                     OnceWrapper w t f ∈ Set_values (Set_add h s) → (w < closures b)%nat)
    as Hadd.
  { intros s w t f Hs. rewrite Set_values_add. case_decide; [apply Hs|].
    intros [Hin|Hin]%elem_of_app; [by eapply Hs|].
    apply list_elem_of_singleton in Hin. by eapply Hh. }
  unfold on. destruct (handlers b !! type) as [r|] eqn:E; cbn.
  - rewrite E. intros r' s' w t f. cbn. destruct (decide (r = r')) as [<-|Hne].
    + rewrite list_lookup_alter_eq. destruct (sets b !! r) as [s|] eqn:Es; [|done].
      intros [= <-]. apply Hadd. intros w' t' f'. by eapply Hfresh.
    + rewrite list_lookup_alter_ne by done. apply Hfresh.
  - rewrite lookup_insert_eq. intros r' s' w t f. cbn.
    destruct (decide (length (sets b) = r')) as [<-|Hne].
    + rewrite list_lookup_alter_eq, lookup_app_r, Nat.sub_diag by done. cbn.
      intros [= <-]. apply Hadd. intros w' t' f' Hin. by apply elem_of_nil in Hin.
    + rewrite list_lookup_alter_ne by done. intros Hs.
      apply lookup_app_Some in Hs as [Hs|[Hge Hs]]; [by eapply Hfresh|].
      destruct (r' - length (sets b))%nat eqn:Ed; [lia|done].
Qed.

Lemma wrappersFresh_off (type : string) (h : EventHandler) (b : EventBus) :
  wrappersFresh b → wrappersFresh (off type h b).
Proof.
  intros Hfresh.
  assert (wrappersFresh (set_sets (alter (Set_delete h) (default 0%nat (handlers b !! type))
                                     (sets b)) b)) as Hfresh'.
  { intros r' s' w t f. cbn. set (r := default 0%nat (handlers b !! type)).
    destruct (decide (r = r')) as [<-|Hne].
    - rewrite list_lookup_alter_eq. destruct (sets b !! r) as [s|] eqn:Es; [|done].
      intros [= <-] Hin. eapply Hfresh; [exact Es|].
      eapply elem_of_sublist; [exact Hin|apply Set_delete_sublist].
    - rewrite list_lookup_alter_ne by done. apply Hfresh. }
  unfold off. destruct (handlers b !! type) as [r|]; [|done]. by case_decide.
Qed.

Lemma wrappersFresh_step (c : Call) (b : EventBus) :
  wrappersFresh b → wrappersFresh (step c b).
Proof.
  intros Hfresh. destruct c as [type f|type f|type f|message]; cbn.
  - by apply wrappersFresh_on.
  - by apply wrappersFresh_off.
  - unfold once. apply wrappersFresh_on.
    + intros w t f' [= <- _ _]. cbn. lia.
    + intros r s w t f' Hs Hin. cbn. specialize (Hfresh r s w t f' Hs Hin). lia.
  - destruct (handleMessage message b) as [[b' out]|] eqn:E; [|done].
    eapply (handleMessage_inv wrappersFresh); [| | |exact Hfresh|exact E]; try done.
    intros w t f b0. apply wrappersFresh_off.
Qed.

Lemma wrappersFresh_run (cs : list Call) (b : EventBus) :
  wrappersFresh b → wrappersFresh (run cs b).
Proof.
  revert b. induction cs as [|c cs IH]; intros b Hf; [done|].
  cbn. apply IH. by apply wrappersFresh_step.
Qed.

Lemma once_subscribers (type : string) (f : nat) (b : EventBus) :
  tableInv b → wrappersFresh b →
  subscribers type (once type f b)
  = Some (default [] (subscribers type b) ++ [OnceWrapper (closures b) type f]).
Proof.
  intros Hinv Hfresh. unfold once.
  rewrite on_appends by exact Hinv. cbn zeta.
  change (subscribers type (set_closures (S (closures b)) b)) with (subscribers type b).
  rewrite decide_False; [done|].
  unfold subscribers. destruct (handlers b !! type) as [r|]; cbn; [|apply not_elem_of_nil].
  destruct (sets b !! r) as [s|] eqn:Es; cbn; [|apply not_elem_of_nil].
  intros Hin. specialize (Hfresh r s _ _ _ Es Hin). lia.
Qed.

Lemma once_delivery (o : EventBusOptions.t) (uuid : string)
    (cs : list Call) (f : nat) (message : ReceivedEventMessage) :
  let b := run cs (constructor o uuid) in
  let hs := default [] (subscribers (event message) b) in
  Forall (fun h => throws (userFn h) message = false) hs →
  ∃ b',
    handleMessage message (once (event message) f b)
    = Some (b', if throws f message then Thrown else Returned)
    ∧ calls b' = calls b ++ map (fun h => (userFn h, message)) hs ++ [(f, message)]
    ∧ OnceWrapper (closures b) (event message) f
      ∉ default [] (subscribers (event message) b').
Proof.
  intros b hs Hall. subst hs. set (type := event message) in *.
  set (hs := default [] (subscribers type b)) in *.
  set (W := OnceWrapper (closures b) type f).
  assert (tableInv b) as Hinv by apply tableInv_run, tableInv_constructor.
  assert (setsNoDup b) as Hnd by apply setsNoDup_run, setsNoDup_constructor.
  assert (wrappersFresh b) as Hfresh by apply wrappersFresh_run, wrappersFresh_constructor.
  set (b1 := once type f b).
  assert (tableInv (logged message b1) ∧ setsNoDup (logged message b1)) as [Hinv1 Hnd1].
  { assert (tableInv b1) as H1 by (by apply tableInv_once).
    assert (setsNoDup b1) as H2 by (unfold b1, once; apply setsNoDup_on; exact Hnd).
    unfold logged. destruct (Options.debug _); split; assumption. }
  rewrite dispatch_refines. fold type b1.
  unfold b1 at 1. rewrite once_subscribers by done. cbn [default from_option].
  change (id (?a ++ ?c)) with (a ++ c). fold hs. rewrite dispatch_app.
  destruct (dispatch_all_return hs message (logged message b1) Hall) as [Hout Hcalls].
  pose proof (dispatch_inv tableInv hs message (logged message b1)
                ltac:(done) ltac:(intros; by apply tableInv_off) Hinv1) as Hinvx.
  pose proof (dispatch_inv setsNoDup hs message (logged message b1)
                ltac:(done) ltac:(intros; by apply setsNoDup_off) Hnd1) as Hndx.
  destruct (dispatch hs message (logged message b1)) as [x out]. cbn in *. subst out.
  exists (off type W (called f message x)). split; [|split].
  - unfold W. cbn [dispatch invoke userFn]. by destruct (throws f message).
  - rewrite off_calls. cbn. rewrite Hcalls. unfold logged, b1.
    rewrite <- app_assoc. f_equal.
    assert (calls (once type f b) = calls b) as Hc'
      by (unfold once, on; cbn; destruct (handlers b !! type) eqn:E; cbn;
          rewrite ?E, ?lookup_insert_eq; done).
    by destruct (Options.debug _).
  - rewrite off_filters by done.
    destruct (subscribers type (called f message x)) as [l|]; [|apply not_elem_of_nil].
    case_decide; [apply not_elem_of_nil|]. cbn.
    intros [Hne _]%list_elem_of_filter. by apply Hne.
Qed.

(** In a state reached from a new instance, after [once(type, f)] the
    first delivery of the topic in which no earlier handler throws runs
    [f] last, hands on what [f] did (it throws when [f] throws), and leaves
    the wrapper unsubscribed in both cases. *)
Theorem once_runs_and_unsubscribes (o : EventBusOptions.t) (uuid : string)
    (cs : list Call) (f : nat) (message : ReceivedEventMessage) :
  let b := run cs (constructor o uuid) in
  let hs := default [] (subscribers (event message) b) in
  Forall (fun h => throws (userFn h) message = false) hs →
  ∃ b',
    handleMessage message (once (event message) f b)
    = Some (b', if throws f message then Thrown else Returned)
    ∧ calls b' = calls b ++ map (fun h => (userFn h, message)) hs ++ [(f, message)]
    ∧ OnceWrapper (closures b) (event message) f
      ∉ default [] (subscribers (event message) b').
Proof. exact (once_delivery o uuid cs f message). Qed.

(** *** More on the reader loop *)

(** A record whose value is missing or does not decode reaches no handler;
    the error is logged and the record is acked all the same. *)
Theorem undecodable_record_acked {E Msg : Type} (parse : string → option Msg)
    (handler : Msg → E → option (E * outcome)) (s : EventStream.t) (e : E)
    (key messageId : string) (fields : list string) (records : list StreamRecord) :
  fields !! 1%nat ≫= parse = None →
  EventStream.forBody parse handler (key, (messageId, fields) :: records) (s, e)
  = Some (EventStream.send
            (XACK (EventStream.getStreamKey s) (EventStream.getGroupKey s) messageId)
            (EventStream.consoleError s),
          e).
Proof.
  intros Hparse. unfold EventStream.forBody, EventStream.tryHandle. cbn.
  by rewrite Hparse.
Qed.

(** A record whose message no handler throws on (a topic without handlers
    included) is dispatched to every handler of the topic, in order, and
    acked, and no error is logged. *)
Theorem record_dispatched_and_acked (s : EventStream.t) (b : EventBus)
    (key messageId : string) (fields : list string) (records : list StreamRecord)
    (message : ReceivedEventMessage) :
  fields !! 1%nat ≫= EJSON_parse = Some message →
  Forall (fun h => throws (userFn h) message = false)
    (default [] (subscribers (event message) b)) →
  ∃ s' b',
    EventStream.forBody EJSON_parse handleMessage
      (key, (messageId, fields) :: records) (s, b) = Some (s', b')
    ∧ calls b'
      = calls b
        ++ map (fun h => (userFn h, message)) (default [] (subscribers (event message) b))
    ∧ EventStream.sent s'
      = EventStream.sent s
        ++ [XACK (EventStream.getStreamKey s) (EventStream.getGroupKey s) messageId]
    ∧ EventStream.errors s' = EventStream.errors s.
Proof.
  intros Hparse Hall.
  destruct (dispatch_returns message b Hall) as (b' & Hrun & Hcalls).
  exists (EventStream.send
            (XACK (EventStream.getStreamKey s) (EventStream.getGroupKey s) messageId) s), b'.
  unfold EventStream.forBody, EventStream.tryHandle. cbn.
  rewrite Hparse. cbn. rewrite Hrun. cbn. done.
Qed.

Lemma forBody_spec (s : EventStream.t) (b : EventBus) (message : StreamEntry) :
  ∃ s' b',
    EventStream.forBody EJSON_parse handleMessage message (s, b) = Some (s', b')
    ∧ EventStream.sent s'
      = EventStream.sent s
        ++ acksOf (EventStream.getStreamKey s) (EventStream.getGroupKey s) [message]
    ∧ EventStream.options s' = EventStream.options s
    ∧ EventStream.loop s' = EventStream.loop s
    ∧ EventStream.status s' = EventStream.status s
    ∧ sent b' = sent b ∧ streams b' = streams b ∧ options b' = options b.
Proof.
  destruct message as [key [|[messageId fields] records]].
  - exists s, b. cbn. by rewrite app_nil_r.
  - unfold EventStream.forBody, EventStream.tryHandle. cbn.
    destruct (fields !! 1%nat ≫= EJSON_parse) as [m|]; cbn; [|by eexists _, _].
    destruct (handleMessage_total m b) as [[b' out] Hrun]. rewrite Hrun.
    destruct (dispatch_frame m b b' out Hrun) as (Hs & _ & Hst & Ho & _).
    destruct out; cbn; by eexists _, _.
Qed.

Lemma forOf_spec (messages : list StreamEntry) (s : EventStream.t) (b : EventBus) :
  ∃ s' b',
    EventStream.forOf EJSON_parse handleMessage messages (s, b) = Some (s', b')
    ∧ EventStream.sent s'
      = EventStream.sent s
        ++ acksOf (EventStream.getStreamKey s) (EventStream.getGroupKey s) messages
    ∧ EventStream.options s' = EventStream.options s
    ∧ EventStream.loop s' = EventStream.loop s
    ∧ EventStream.status s' = EventStream.status s
    ∧ sent b' = sent b ∧ streams b' = streams b ∧ options b' = options b.
Proof.
  revert s b. induction messages as [|message messages IH]; intros s b.
  - exists s, b. cbn. by rewrite app_nil_r.
  - destruct (forBody_spec s b message) as (s1 & b1 & Hrun & Hsent & Ho & Hl & Hst & Hb).
    destruct (IH s1 b1) as (s2 & b2 & Hrun2 & Hsent2 & Ho2 & Hl2 & Hst2 & Hb2).
    exists s2, b2. cbn [EventStream.forOf]. rewrite Hrun. cbn. rewrite Hrun2.
    split; [done|]. split.
    + rewrite Hsent2, Hsent. unfold EventStream.getStreamKey, EventStream.getGroupKey.
      rewrite Ho, <- app_assoc. f_equal.
      unfold acksOf. cbn. by destruct (message.2) as [|[? ?] ?].
    + destruct Hb2 as (-> & -> & ->), Hb as (-> & -> & ->).
      by rewrite Ho2, Hl2, Hst2.
Qed.

Lemma whileBody_spec (reply : option (list StreamEntry)) (s : EventStream.t)
    (b : EventBus) :
  let o := EventStream.options s in
  ∃ s' b',
    EventStream.whileBody EJSON_parse handleMessage reply (s, b) = Some (s', b')
    ∧ EventStream.sent s'
      = EventStream.sent s
        ++ XREADGROUP (EventStream.group o) (EventStream.consumer o)
             (EventStream.batchSize o) 1000 (EventStream.stream o) ">"
           :: acksOf (EventStream.stream o) (EventStream.group o) (default [] reply)
    ∧ EventStream.options s' = EventStream.options s
    ∧ EventStream.loop s' = EventStream.loop s
    ∧ sent b' = sent b ∧ streams b' = streams b.
Proof.
  cbn zeta. unfold EventStream.whileBody. cbn [fst snd].
  destruct reply as [messages|]; cbn [default from_option].
  - match goal with |- context [EventStream.forOf _ _ _ (?s1, _)] =>
      destruct (forOf_spec messages s1 b)
        as (s' & b' & Hrun & Hsent & Ho & Hl & _ & Hs & Hst & _) end.
    exists s', b'. rewrite Hrun, Hsent. cbn. rewrite <- app_assoc. done.
  - eexists _, b. cbn. done.
Qed.

(** A turn of the reader loop in which the store answers the read and the
    acknowledgements issues, on the reader's connection, the blocking read
    of the reader's own stream and group, with its batch size, a block of
    1000 ms and the id ">", and then one [XACK] for the first record of
    every element of the reply, in order, whatever the handlers did. *)
Theorem whileBody_commands (reply : option (list StreamEntry)) (s s' : EventStream.t)
    (b b' : EventBus) :
  let o := EventStream.options s in
  EventStream.whileBody EJSON_parse handleMessage reply (s, b) = Some (s', b') →
  EventStream.sent s'
  = EventStream.sent s
    ++ XREADGROUP (EventStream.group o) (EventStream.consumer o)
         (EventStream.batchSize o) 1000 (EventStream.stream o) ">"
       :: acksOf (EventStream.stream o) (EventStream.group o) (default [] reply).
Proof.
  intros o Hrun.
  destruct (whileBody_spec reply s b) as (s2 & b2 & Hrun2 & Hsent & _).
  rewrite Hrun in Hrun2. injection Hrun2 as <- <-. exact Hsent.
Qed.

Lemma while_spec (replies : list (option (list StreamEntry))) (s : EventStream.t)
    (b : EventBus) :
  ∃ s' b',
    EventStream.while EJSON_parse handleMessage replies (s, b) = Some (s', b')
    ∧ EventStream.options s' = EventStream.options s
    ∧ EventStream.loop s' = EventStream.loop s
    ∧ EventStream.status s' = EventStream.status s
    ∧ sent b' = sent b ∧ streams b' = streams b ∧ options b' = options b.
Proof.
  revert s b. induction replies as [|reply replies IH]; intros s b.
  - by exists s, b.
  - cbn [EventStream.while fst]. destruct (EventStream.loop s) eqn:El; [|by exists s, b].
    unfold EventStream.whileBody. cbn [fst snd].
    set (s1 := EventStream.send _ s).
    assert (∃ s2 b2, match reply with
                     | Some ms => EventStream.forOf EJSON_parse handleMessage ms (s1, b)
                     | None => Some (s1, b)
                     end = Some (s2, b2)
                     ∧ EventStream.options s2 = EventStream.options s
                     ∧ EventStream.loop s2 = EventStream.loop s
                     ∧ EventStream.status s2 = EventStream.status s
                     ∧ sent b2 = sent b ∧ streams b2 = streams b ∧ options b2 = options b)
      as (s2 & b2 & Hrun & Ho & Hl & Hst & Hb).
    { destruct reply as [ms|].
      - destruct (forOf_spec ms s1 b) as (s2 & b2 & Hrun & _ & Ho & Hl & Hst & Hb).
        by exists s2, b2.
      - by exists s1, b. }
    rewrite Hrun. cbn.
    destruct (IH s2 b2) as (s3 & b3 & Hrun3 & Ho3 & Hl3 & Hst3 & Hb3).
    exists s3, b3. rewrite Hrun3. destruct Hb3 as (-> & -> & ->), Hb as (-> & -> & ->).
    by rewrite Ho3, Hl3, Hst3, Ho, Hl, Hst.
Qed.

Lemma getStream_setStream (m m' : EventMode) (s : EventStream.t) (ss : Streams) :
  getStream m' (setStream m s ss) = if decide (m' = m) then s else getStream m' ss.
Proof. by destruct m, m'. Qed.

Lemma setStream_getStream (m : EventMode) (ss : Streams) :
  setStream m (getStream m ss) ss = ss.
Proof. by destruct m, ss. Qed.

(** After [close], a reader loop that looks at its flag stops: it issues no
    further read and dispatches nothing, whatever the store would reply. *)
Theorem readerLoop_after_close (m : EventMode) (replies : list (option (list StreamEntry)))
    (b : EventBus) :
  readerLoop m replies (close b) = Some (close b).
Proof.
  unfold readerLoop.
  assert (EventStream.loop (getStream m (streams (close b))) = false) as Hl
    by (by destruct m).
  assert (EventStream.while EJSON_parse handleMessage replies
            (getStream m (streams (close b)), close b)
          = Some (getStream m (streams (close b)), close b)) as ->.
  { destruct replies; [done|]. cbn [EventStream.while fst]. by rewrite Hl. }
  cbn [mbind option_bind fst snd]. rewrite setStream_getStream. by destruct b.
Qed.

(** *** The keys *)

Lemma append_char_inj (c : ascii) (x y : string) :
  x +:+ String c "" = y +:+ String c "" → x = y.
Proof.
  revert y. induction x as [|a x IH]; intros [|a' y]; cbn; intros H.
  - done.
  - injection H as _ H. by destruct y.
  - injection H as _ H. by destruct x.
  - injection H as -> H. f_equal. by apply IH.
Qed.

(** Two instances have the same key prefix exactly when their resolved
    names are the same. *)
Theorem keyPrefix_injective (o1 o2 : EventBusOptions.t) (u1 u2 : string) :
  keyPrefix (constructor o1 u1) = keyPrefix (constructor o2 u2)
  ↔ Options.name (options (constructor o1 u1)) = Options.name (options (constructor o2 u2)).
Proof.
  cbn -[String.append]. split; [|by intros ->].
  intros H. apply (inj (String.app "eventbus:")) in H. by apply append_char_inj in H.
Qed.

(** The three stream keys of an instance are pairwise different. *)
Theorem stream_keys_distinct (o : EventBusOptions.t) (uuid : string) :
  let ss := streams (constructor o uuid) in
  EventStream.getStreamKey (anycast ss) ≠ EventStream.getStreamKey (broadcast ss)
  ∧ EventStream.getStreamKey (anycast ss) ≠ EventStream.getStreamKey (unicast ss)
  ∧ EventStream.getStreamKey (broadcast ss) ≠ EventStream.getStreamKey (unicast ss).
Proof.
  cbn -[String.append].
  repeat split; intros H; apply (inj (String.app _)) in H; discriminate.
Qed.

(** Instances of the same name read the same anycast stream through the
    same group and the same broadcast stream; the broadcast group and the
    unicast stream are the instance's own: two instances share them
    exactly when they have the same id. *)
Theorem stream_topology (o1 o2 : EventBusOptions.t) (u1 u2 : string) :
  let p := constructor o1 u1 in
  let q := constructor o2 u2 in
  Options.name (options p) = Options.name (options q) →
  EventStream.getStreamKey (anycast (streams p)) = EventStream.getStreamKey (anycast (streams q))
  ∧ EventStream.getGroupKey (anycast (streams p)) = EventStream.getGroupKey (anycast (streams q))
  ∧ EventStream.getStreamKey (broadcast (streams p))
    = EventStream.getStreamKey (broadcast (streams q))
  ∧ (EventStream.getGroupKey (broadcast (streams p))
     = EventStream.getGroupKey (broadcast (streams q)) ↔ instanceId p = instanceId q)
  ∧ (EventStream.getStreamKey (unicast (streams p))
     = EventStream.getStreamKey (unicast (streams q)) ↔ instanceId p = instanceId q).
Proof.
  cbn -[String.append]. intros ->. repeat split; try (by intros ->).
  - intros H. by apply (inj (String.app _)) in H.
  - intros H. apply (inj (String.app _)) in H. by apply (inj (String.app "unicast:")) in H.
Qed.

(** A message emitted with the id of an instance of the same name as its
    target is appended to the very key that this instance's unicast reader
    reads, with the mode UNICAST whatever mode was given. *)
Theorem unicast_reaches_target (o1 o2 : EventBusOptions.t) (u1 u2 : string)
    (topic : string) (md : option EventMode) (d : option Data) (now : Z)
    (reply : Result string) :
  let p := constructor o1 u1 in
  let q := constructor o2 u2 in
  Options.name (options p) = Options.name (options q) →
  instanceId q ≠ "" →
  emit topic
    {| EventMessage.mode := md; EventMessage.target := Some (instanceId q);
       EventMessage.data := d |} now reply p
  = (send
       (XADD (EventStream.getStreamKey (unicast (streams q))) "*" "message"
          (EJSON_stringify
             {| mode := UNICAST; target := Some (instanceId q); event := topic;
                data := d; timestamp := now; source := instanceId p |})) p,
     reply).
Proof.
  intros p q Hname Hid. unfold emit, emitPayload, emitStreamKey, emitMode.
  cbn [EventMessage.target EventMessage.mode EventMessage.data].
  rewrite truthy_Some by done. rewrite decide_True by done.
  cbn -[String.append]. cbn -[String.append] in Hname. by rewrite Hname.
Qed.

(** A message emitted without target, with the mode ANYCAST or BROADCAST
    (the default), is appended to the key that the reader of that mode
    reads in every instance of the same name. *)
Theorem shared_modes_reach_peers (o1 o2 : EventBusOptions.t) (u1 u2 : string)
    (topic : string) (md : option EventMode) (d : option Data) (now : Z)
    (reply : Result string) :
  let p := constructor o1 u1 in
  let q := constructor o2 u2 in
  Options.name (options p) = Options.name (options q) →
  md ≠ Some UNICAST →
  emit topic
    {| EventMessage.mode := md; EventMessage.target := None; EventMessage.data := d |}
    now reply p
  = (send
       (XADD (EventStream.getStreamKey (getStream (default BROADCAST md) (streams q)))
          "*" "message"
          (EJSON_stringify
             {| mode := default BROADCAST md; target := None; event := topic;
                data := d; timestamp := now; source := instanceId p |})) p,
     reply).
Proof.
  intros p q Hname Hmd. unfold emit, emitPayload, emitStreamKey, emitMode.
  cbn [EventMessage.target EventMessage.mode EventMessage.data truthy nullish].
  cbn -[String.append] in Hname.
  destruct md as [[]|]; try done; cbn -[String.append]; by rewrite Hname.
Qed.

(** *** More on maintenance *)

Lemma prefix_append (p x : string) : String.prefix p (p +:+ x) = true.
Proof.
  induction p as [|a p IH]; simpl; [by destruct x|].
  destruct (ascii_dec a a); [exact IH|done].
Qed.

Lemma dropString_append (p x : string) : dropString (String.length p) (p +:+ x) = x.
Proof. induction p as [|a p IH]; cbn; [by destruct x|exact IH]. Qed.

Lemma replaceFirst_prefix (pat s : string) :
  String.prefix pat s = true → replaceFirst pat s = dropString (String.length pat) s.
Proof.
  intros H. destruct s; unfold replaceFirst; fold replaceFirst; by rewrite H.
Qed.

Lemma replaceFirst_append (p x : string) : replaceFirst p (p +:+ x) = x.
Proof.
  rewrite replaceFirst_prefix by apply prefix_append. apply dropString_append.
Qed.

Lemma sendAll_app (l1 l2 : list Command) (b : EventBus) :
  sendAll l2 (sendAll l1 b) = sendAll (l1 ++ l2) b.
Proof. unfold sendAll. by rewrite foldl_app. Qed.

Lemma sendAll_frame (l : list Command) (b : EventBus) :
  streams (sendAll l b) = streams b ∧ options (sendAll l b) = options b
  ∧ keyPrefix (sendAll l b) = keyPrefix b.
Proof.
  revert b. induction l as [|c l IH]; intros b; [done|]. exact (IH (send c b)).
Qed.

Lemma probeGroups_names (gs : list (list Reply)) (b : EventBus) :
  Forall (fun g => ∃ name, g !! 1%nat = Some (RStr name)) gs →
  probeGroups gs b
  = (sendAll (map (fun name => EXISTS (witnessKey (keyPrefix b) name)) (groupNames gs)) b,
     Returned).
Proof.
  revert b. induction gs as [|g gs IH]; intros b Hwf; [done|].
  apply Forall_cons in Hwf as [[name Hg] Hwf]. cbn. rewrite Hg. cbn.
  rewrite (IH _ Hwf). done.
Qed.

(** The probes of the broadcast garbage collection ask for the right key:
    from the broadcast group of an instance of the same name, the key that
    is probed is that instance's unicast stream; and the group is destroyed
    exactly when both probes answer 0, the second probe being made exactly
    when the first answers 0. *)
Theorem stale_group_destroyed_after_two_probes (o1 o2 : EventBusOptions.t)
    (u1 u2 : string) (first second : Z) :
  let p := constructor o1 u1 in
  let q := constructor o2 u2 in
  let streamKey := EventStream.getStreamKey (broadcast (streams p)) in
  let name := EventStream.getGroupKey (broadcast (streams q)) in
  Options.name (options p) = Options.name (options q) →
  issued p (confirmGroup streamKey name first second p)
  = if decide (first = 0)
    then EXISTS (EventStream.getStreamKey (unicast (streams q)))
         :: (if decide (second = 0) then [XGROUP_DESTROY streamKey name] else [])
    else [].
Proof.
  intros p q streamKey name Hname.
  assert (witnessKey (keyPrefix p) name = EventStream.getStreamKey (unicast (streams q)))
    as Hw.
  { unfold witnessKey, name, p, q. cbn -[String.append replaceFirst].
    cbn -[String.append] in Hname. rewrite <- Hname.
    by rewrite replaceFirst_append. }
  unfold confirmGroup, issued.
  destruct (Z.eqb_spec first 0) as [->|Hf].
  - rewrite decide_True by done. destruct (Z.eqb_spec second 0) as [->|Hs].
    + rewrite decide_True by done. rewrite Hw.
      destruct (Options.debug _); cbn [sent send consoleLog];
        rewrite <- app_assoc, drop_app_length; done.
    + rewrite decide_False by done. rewrite Hw. cbn [sent send].
      by rewrite drop_app_length.
  - rewrite decide_False by done. by rewrite drop_all.
Qed.

Lemma maintainStream_pass (m : EventMode) (r : MaintenanceReplies) (b : EventBus) :
  (m = BROADCAST → Forall (fun g => ∃ name, g !! 1%nat = Some (RStr name)) (groups r)) →
  maintainStream m r b = (sendAll (streamPass m r b) b, Returned).
Proof.
  intros Hwf. unfold maintainStream, streamPass. cbn [options send].
  set (K := EventStream.getStreamKey _). set (G := EventStream.getGroupKey _).
  set (prunes := flat_map _ _).
  change (send (XINFO_CONSUMERS K G)
            (send (EXPIRE K (Options.streamTTL (options b)))
               (send (XTRIM_MAXLEN K (Options.maxMessageCount (options b))) b)))
    with (sendAll [XTRIM_MAXLEN K (Options.maxMessageCount (options b));
                   EXPIRE K (Options.streamTTL (options b));
                   XINFO_CONSUMERS K G] b).
  rewrite sendAll_app. case_decide as Hm.
  - rewrite probeGroups_names by (by apply Hwf).
    change (send (XINFO_GROUPS K) ?x) with (sendAll [XINFO_GROUPS K] x).
    rewrite sendAll_app.
    assert (∀ l x, keyPrefix (sendAll l x) = keyPrefix x) as Hk
      by (intros l x; apply sendAll_frame).
    rewrite !Hk. rewrite sendAll_app. by rewrite <- !app_assoc.
  - by rewrite app_nil_r.
Qed.

Lemma streamPass_frame (m : EventMode) (r : MaintenanceReplies) (l : list Command)
    (b : EventBus) :
  streamPass m r (sendAll l b) = streamPass m r b.
Proof.
  unfold streamPass. destruct (sendAll_frame l b) as (-> & -> & ->). done.
Qed.

Lemma maintainOnce_pass (replies : EventMode → MaintenanceReplies) (b : EventBus) :
  Forall (fun g => ∃ name, g !! 1%nat = Some (RStr name)) (groups (replies BROADCAST)) →
  maintainOnce replies b
  = (sendAll (streamPass ANYCAST (replies ANYCAST) b
              ++ streamPass BROADCAST (replies BROADCAST) b
              ++ streamPass UNICAST (replies UNICAST) b) b,
     Returned).
Proof.
  intros Hwf. unfold maintainOnce, streamModes. cbn [maintainStreams].
  rewrite maintainStream_pass by done.
  rewrite maintainStream_pass by (intros _; exact Hwf).
  rewrite maintainStream_pass by done.
  by rewrite !streamPass_frame, !sendAll_app.
Qed.

Lemma issued_sendAll (l : list Command) (b : EventBus) : issued b (sendAll l b) = l.
Proof. unfold issued. by rewrite sent_sendAll, drop_app_length. Qed.

(** In a maintenance pass whose commands the store answers, over a reply
    of [XINFO GROUPS] in which every group has a name, each of the three
    streams is trimmed to [maxMessageCount] and has its expiry renewed
    with the resolved [streamTTL]. *)
Theorem maintainOnce_renews_every_stream (replies : EventMode → MaintenanceReplies)
    (b : EventBus) (m : EventMode) :
  Forall (fun g => ∃ name, g !! 1%nat = Some (RStr name)) (groups (replies BROADCAST)) →
  XTRIM_MAXLEN (EventStream.getStreamKey (getStream m (streams b)))
    (Options.maxMessageCount (options b)) ∈ issued b (maintainOnce replies b).1
  ∧ EXPIRE (EventStream.getStreamKey (getStream m (streams b)))
      (Options.streamTTL (options b)) ∈ issued b (maintainOnce replies b).1.
Proof.
  intros Hwf. rewrite maintainOnce_pass by done. cbn [fst snd].
  rewrite issued_sendAll. rewrite !elem_of_app.
  destruct m; unfold streamPass; rewrite !elem_of_app, !elem_of_cons; naive_solver.
Qed.

(** *** Failures of [init] *)

(** [init] fails when the control connection cannot connect, and then
    touches nothing.  It also fails when the connection of one reader
    cannot connect: the timer of the maintenance is not set and that
    reader is left as it was, but the readers that could connect have
    created their group and run their loop all the same. *)
Theorem init_fails_when_a_connection_fails (answers : EventMode → Result unit * Result unit)
    (b : EventBus) (m : EventMode) :
  init Rejected answers b = (b, Thrown)
  ∧ ((answers m).1 = Rejected →
     let r := init (Resolved ()) answers b in
     r.2 = Thrown
     ∧ maintenanceTimer r.1 = maintenanceTimer b
     ∧ getStream m (streams r.1) = getStream m (streams b)
     ∧ ∀ m', (answers m').1 = Resolved () →
             EventStream.loop (getStream m' (streams r.1)) = true
             ∧ EventStream.status (getStream m' (streams r.1)) = Ready).
Proof.
  split; [done|]. intros Hm. cbn zeta. unfold init. cbv zeta.
  set (run := fun m0 => EventStream.init (answers m0).1 (answers m0).2
                          (getStream m0 (streams (set_status Ready b)))).
  change (forallb _ streamModes)
    with (forallb (fun m0 => bool_decide ((run m0).2 = Returned)) streamModes).
  change (EventStream.init (answers ANYCAST).1 (answers ANYCAST).2
            (getStream ANYCAST (streams (set_status Ready b)))) with (run ANYCAST).
  change (EventStream.init (answers BROADCAST).1 (answers BROADCAST).2
            (getStream BROADCAST (streams (set_status Ready b)))) with (run BROADCAST).
  change (EventStream.init (answers UNICAST).1 (answers UNICAST).2
            (getStream UNICAST (streams (set_status Ready b)))) with (run UNICAST).
  assert (run m = (getStream m (streams b), Thrown)) as Hrun.
  { unfold run. rewrite Hm. done. }
  assert (forallb (fun m0 => bool_decide ((run m0).2 = Returned)) streamModes = false) as ->.
  { apply not_true_iff_false. intros Hall. rewrite forallb_forall in Hall.
    assert (In m streamModes) as Hin by (destruct m; cbn; tauto).
    specialize (Hall m Hin). rewrite Hrun in Hall. done. }
  cbn [fst snd]. split; [done|]. split; [done|]. split.
  - destruct m; cbn; by rewrite Hrun.
  - intros m' Hm'.
    assert (EventStream.loop (run m').1 = true ∧ EventStream.status (run m').1 = Ready)
      as Hl.
    { unfold run. rewrite Hm'. cbn. by destruct ((answers m').2). }
    by destruct m'.
Qed.

(** *** The options and the id *)

(** The instance id is the UUID without its dashes: the other characters
    are kept, in their order. *)
Theorem instanceId_is_uuid_without_dashes (o : EventBusOptions.t) (uuid : string) :
  String.list_ascii_of_string (instanceId (constructor o uuid))
  = filter (.≠ "-"%char) (String.list_ascii_of_string uuid).
Proof.
  cbn [instanceId constructor]. induction uuid as [|c s IH]; [done|].
  cbn [removeDashes String.list_ascii_of_string].
  destruct (Ascii.eqb_spec c "-"%char) as [->|Hne].
  - by rewrite filter_cons_False by (intros H; by apply H).
  - rewrite filter_cons_True by done. cbn. by rewrite IH.
Qed.

(** What the constructor makes of the options that are given: an empty
    name and a retention of 0 are replaced by the defaults, as if they were
    absent, while [maxMessageCount], [onlyNew] and [debug] are taken as
    given (a count of 0 included), and [role] and [redis] are copied. *)
Theorem given_options_resolved (o : EventBusOptions.t) (uuid : string) :
  let r := options (constructor o uuid) in
  (∀ s, EventBusOptions.name o = Some s →
        Options.name r = if decide (s = "") then "default" else s)
  ∧ (∀ n, EventBusOptions.messageRetention o = Some n →
          Options.messageRetention r = if decide (n = 0) then 300000 else n)
  ∧ (∀ n, EventBusOptions.maxMessageCount o = Some n → Options.maxMessageCount r = n)
  ∧ (∀ v, EventBusOptions.onlyNew o = Some v → Options.onlyNew r = v)
  ∧ (∀ v, EventBusOptions.debug o = Some v → Options.debug r = v)
  ∧ Options.role r = EventBusOptions.role o
  ∧ Options.redis r = EventBusOptions.redis o.
Proof.
  cbn. repeat split.
  - intros s ->. cbn. destruct (String.eqb_spec s ""); by case_decide.
  - intros n ->. cbn. destruct (Z.eqb_spec n 0); by case_decide.
  - by intros n ->.
  - by intros v ->.
  - by intros v ->.
Qed.

(** *** [once], seen by the caller *)

Lemma once_calls (type : string) (f : nat) (b : EventBus) :
  calls (once type f b) = calls b.
Proof.
  unfold once, on. cbn. destruct (handlers b !! type) eqn:E; cbn;
    rewrite ?E, ?lookup_insert_eq; done.
Qed.

Lemma deliver_no_subscribers (message : ReceivedEventMessage) (b : EventBus) :
  default [] (subscribers (event message) b) = [] →
  step (Deliver message) b = logged message b.
Proof.
  intros Hnone. cbn [step]. rewrite dispatch_refines, Hnone. done.
Qed.

Lemma deliveries_no_subscribers (type : string) (ms : list ReceivedEventMessage)
    (b : EventBus) :
  Forall (fun m => event m = type) ms →
  default [] (subscribers type b) = [] →
  calls (run (map Deliver ms) b) = calls b.
Proof.
  revert b. induction ms as [|m ms IH]; intros b Hall Hnone; [done|].
  apply Forall_cons in Hall as [Hm Hall]. cbn [map run foldl].
  change (foldl (fun b c => step c b) ?x ?l) with (run l x).
  rewrite deliver_no_subscribers by (by rewrite Hm).
  rewrite IH; [|done|].
  - unfold logged. by destruct (Options.debug _).
  - unfold logged. by destruct (Options.debug _).
Qed.

(** On a new instance, after [once(type, f)], however many messages of the
    topic are delivered one after another (each dispatch done before the
    next starts, as within one reader), [f] is invoked exactly once, for
    the first of them, whether it throws or not. *)
Theorem once_fires_once (o : EventBusOptions.t) (uuid type : string) (f : nat)
    (ms : list ReceivedEventMessage) :
  Forall (fun m => event m = type) ms →
  calls (run (CallOnce type f :: map Deliver ms) (constructor o uuid))
  = map (fun m => (f, m)) (take 1 ms).
Proof.
  intros Hall. destruct ms as [|m ms]; [apply once_calls|].
  apply Forall_cons in Hall as [Hm Hall]. subst type.
  change (run (CallOnce (event m) f :: map Deliver (m :: ms)) (constructor o uuid))
    with (run (map Deliver ms)
            (step (Deliver m) (once (event m) f (constructor o uuid)))).
  destruct (once_delivery o uuid [] f m) as (b' & Hrun & Hcalls & Hgone).
  { apply Forall_nil_2. }
  change (run [] (constructor o uuid)) with (constructor o uuid) in *.
  cbn [step]. rewrite Hrun.
  destruct (dispatch_monotone m _ b' _ (event m) Hrun) as [Hsub _].
  rewrite once_subscribers in Hsub
    by (apply tableInv_constructor || apply wrappersFresh_constructor).
  change (default [] (subscribers (event m) (constructor o uuid))) with (@nil EventHandler)
    in Hsub.
  cbn [default from_option app id] in Hsub.
  assert (default [] (subscribers (event m) b') = []) as Hnone.
  { destruct (default [] (subscribers (event m) b')) as [|h l]; [done|].
    exfalso. apply Hgone. apply sublist_cons_l in Hsub as (k1 & k2 & Hk & _).
    destruct k1 as [|x k1]; [|by destruct k1]. injection Hk as <- _.
    apply elem_of_cons. by left. }
  rewrite (deliveries_no_subscribers (event m)) by done.
  rewrite Hcalls. done.
Qed.

End Bus.

(** ** The properties at the sample inputs *)

(** The defaults at [{ redis }], and the clamp at [streamTTL: 10]. *)
Lemma constructor_defaults_witness :
  let r := options (constructor (onlyRedis sampleRedis) sampleUUID) in
  Options.streamTTL r = 3600
  ∧ Options.name r = "default"
  ∧ Options.messageRetention r = 300000
  ∧ Options.onlyNew r = false
  ∧ Options.debug r = false
  ∧ Options.maxMessageCount r = 5000.
Proof.
  destruct (constructor_defaults (onlyRedis sampleRedis) sampleUUID)
    as (H1 & H2 & H3 & H4 & H5 & H6).
  split; [exact H1|].
  split; [apply H2; reflexivity|].
  split; [apply H3; reflexivity|].
  split; [apply H4; reflexivity|].
  split; [apply H5; reflexivity|apply H6; reflexivity].
Defined.

(** A unicast [emit] to the instance "c0ffee". *)
Lemma emit_routing_witness :
  ∃ payload key,
    emit sampleStringify "job"
      {| EventMessage.mode := None; EventMessage.target := Some "c0ffee";
         EventMessage.data := None |} 7 (Resolved "7-0") sampleBus
    = (send (XADD key "*" "message" (sampleStringify payload)) sampleBus, Resolved "7-0")
    ∧ source payload = "0a1b2c3d"
    ∧ timestamp payload = 7
    ∧ mode payload = UNICAST
    ∧ key = "eventbus:default:unicast:c0ffee".
Proof.
  destruct (emit_routing sampleStringify "job"
              {| EventMessage.mode := None; EventMessage.target := Some "c0ffee";
                 EventMessage.data := None |} 7 (Resolved "7-0") sampleBus)
    as (payload & key & He & Hs & Ht & _ & Hu & _).
  exists payload, key.
  destruct (Hu "c0ffee" eq_refl ltac:(discriminate)) as [Hm Hk].
  split; [exact He|]. split; [exact Hs|]. split; [exact Ht|]. split; [exact Hm|exact Hk].
Defined.

(** Two consumers of the anycast group, idle for 4000 and for 10, under the
    default [streamTTL] of 3600: the first is deleted. *)
Lemma prune_idle_consumers_witness :
  let slow := {| cname := "c1"; cpending := 0; cidle := 4000; cextra := [] |} in
  let fast := {| cname := "c2"; cpending := 0; cidle := 10; cextra := [] |} in
  let r := {| consumers := map consumerEntry [slow; fast]; groups := [] |} in
  XGROUP_DELCONSUMER "eventbus:default:anycast" "eventbus:default:group" (Some (RStr "c1"))
    ∈ issued sampleBus (maintainStream ANYCAST r sampleBus).1
  ↔ 4000 > 3600.
Proof.
  intros slow fast r.
  apply (prune_idle_consumers ANYCAST r sampleBus [slow; fast] slow).
  - reflexivity.
  - apply (bool_decide_unpack _). vm_compute. reflexivity.
  - apply elem_of_cons. left. reflexivity.
Defined.

(** Three handlers on "job", the second of which throws. *)
Lemma handler_error_skips_rest_but_acks_witness :
  let b := on "job" (UserFn 2) (on "job" (UserFn 1) (on "job" (UserFn 0) sampleBus)) in
  let s := broadcast (streams b) in
  ∃ s' b',
    EventStream.forBody sampleParse (handleMessage sampleThrows)
      ("eventbus:default:broadcast", [("5-0", ["message"; "job"])]) (s, b) = Some (s', b')
    ∧ calls b' = [(0%nat, sampleMessage "job"); (1%nat, sampleMessage "job")]
    ∧ EventStream.sent s'
      = [XACK "eventbus:default:broadcast" "eventbus:default:0a1b2c3d" "5-0"]
    ∧ EventStream.errors s' = 1%nat.
Proof.
  intros b s.
  apply (handler_error_skips_rest_but_acks sampleParse sampleThrows s b
           "eventbus:default:broadcast" "5-0" "message" "job" [] []
           (sampleMessage "job") [UserFn 0] [UserFn 2] (UserFn 1)).
  - reflexivity.
  - reflexivity.
  - repeat constructor.
  - reflexivity.
Defined.

(** A table after a [once] and the delivery that runs its wrapper. *)
Lemma handler_sets_never_empty_witness :
  nonEmptyTopics
    (run sampleThrows [CallOnce "job" 0; CallOn "log" 3; Deliver (sampleMessage "job")]
       sampleBus).
Proof.
  apply (handler_sets_never_empty sampleThrows (onlyRedis sampleRedis) sampleUUID).
Defined.

(** C1 (the code's behaviour): the unicast reader, whose batch size is 10,
    receives a reply with two records for a topic that has a handler; the
    handler is invoked once, the first record is acked, and the second
    record is neither dispatched nor acked. *)
Theorem reader_drops_second_record :
  let b := (init (Resolved ()) allResolved (on "job" (UserFn 0) sampleBus)).1 in
  let key := "eventbus:default:unicast:0a1b2c3d" in
  let group := "eventbus:default:0a1b2c3d" in
  let reply := Some [(key, [("1-0", ["message"; "job"]); ("2-0", ["message"; "job"])])] in
  ∃ b',
    readerLoop sampleParse sampleThrows UNICAST [reply] b = Some b'
    ∧ EventStream.batchSize (EventStream.options (unicast (streams b))) = 10
    ∧ calls b' = [(0%nat, sampleMessage "job")]
    ∧ EventStream.sent (unicast (streams b'))
      = [XGROUP_CREATE key group "0" true;
         EXPIRE key 60;
         XREADGROUP group "0a1b2c3d" 10 1000 key ">";
         XACK key group "1-0"]
    ∧ XACK key group "2-0" ∉ EventStream.sent (unicast (streams b')).
Proof.
  eexists. split; [vm_compute; reflexivity|].
  split; [reflexivity|]. split; [reflexivity|]. split; [reflexivity|].
  apply (bool_decide_unpack _). vm_compute. reflexivity.
Qed.

(** C2 (counterexample): the topic "job" has the handlers 1 and 2, in this
    order, and the handler 1 throws; the record is acked, and the handler 2
    is not invoked. *)
Lemma handler_after_thrower_not_invoked :
  let b := on "job" (UserFn 2) (on "job" (UserFn 1) sampleBus) in
  ∃ s' b',
    subscribers "job" b = Some [UserFn 1; UserFn 2]
    ∧ sampleThrows 1 (sampleMessage "job") = true
    ∧ EventStream.forBody sampleParse (handleMessage sampleThrows)
        ("eventbus:default:broadcast", [("5-0", ["message"; "job"])])
        (broadcast (streams b), b) = Some (s', b')
    ∧ EventStream.sent s'
      = [XACK "eventbus:default:broadcast" "eventbus:default:0a1b2c3d" "5-0"]
    ∧ map fst (calls b') = [1%nat]
    ∧ (2%nat, sampleMessage "job") ∉ calls b'.
Proof.
  eexists _, _. split; [reflexivity|]. split; [reflexivity|].
  split; [vm_compute; reflexivity|]. split; [reflexivity|]. split; [reflexivity|].
  cbn. intros H. apply list_elem_of_singleton in H. discriminate.
Qed.

(** C6 (counterexample): a target that is set to the empty string does not
    force UNICAST, the record goes to the stream of the given mode; and
    with [mode: UNICAST] and no target the record goes to the key ending in
    "unicast:undefined", which is not the key of the instance's unicast
    stream. *)
Lemma emit_routing_counterexample :
  (emit sampleStringify "job"
     {| EventMessage.mode := Some ANYCAST; EventMessage.target := Some "";
        EventMessage.data := None |} 7 (Resolved "7-0") sampleBus).1
  = send
      (XADD "eventbus:default:anycast" "*" "message"
         (sampleStringify
            {| mode := ANYCAST; target := Some ""; event := "job"; data := None;
               timestamp := 7; source := "0a1b2c3d" |})) sampleBus
  ∧ "eventbus:default:anycast" ≠ "eventbus:default:" +:+ "unicast:" +:+ ""
  ∧ (emit sampleStringify "job"
       {| EventMessage.mode := Some UNICAST; EventMessage.target := None;
          EventMessage.data := None |} 7 (Resolved "7-0") sampleBus).1
    = send
        (XADD "eventbus:default:unicast:undefined" "*" "message"
           (sampleStringify
              {| mode := UNICAST; target := None; event := "job"; data := None;
                 timestamp := 7; source := "0a1b2c3d" |})) sampleBus
  ∧ EventStream.getStreamKey (getStream UNICAST (streams sampleBus))
    ≠ "eventbus:default:unicast:undefined".
Proof.
  split; [reflexivity|]. split; [discriminate|]. split; [reflexivity|]. discriminate.
Qed.

(** C7 (counterexample): on an instance that was initialised and then
    closed, [on] is not refused: it adds the handler to the table. *)
Lemma on_after_close_takes_effect :
  let closed := close (init (Resolved ()) allResolved sampleBus).1 in
  status closed = End_
  ∧ subscribers "job" closed = None
  ∧ subscribers "job" (on "job" (UserFn 0) closed) = Some [UserFn 0]
  ∧ on "job" (UserFn 0) closed ≠ closed.
Proof.
  split; [reflexivity|]. split; [reflexivity|]. split; [reflexivity|].
  intros H. apply (f_equal sets) in H. discriminate.
Qed.

(** ** The further properties at the sample inputs *)

Lemma subscribers_on_witness :
  subscribers "job" (on "job" (UserFn 1) (on "job" (UserFn 0) sampleBus))
  = Some [UserFn 0; UserFn 1].
Proof.
  rewrite (subscribers_on "job" (UserFn 1) (on "job" (UserFn 0) sampleBus)).
  - reflexivity.
  - apply tableInv_on, tableInv_constructor.
Defined.

Lemma subscribers_on_other_witness :
  subscribers "log" (on "job" (UserFn 1) (on "log" (UserFn 0) sampleBus))
  = subscribers "log" (on "log" (UserFn 0) sampleBus).
Proof.
  apply (subscribers_on_other "job" "log" (UserFn 1) (on "log" (UserFn 0) sampleBus)).
  - apply tableInv_on, tableInv_constructor.
  - discriminate.
Defined.

Lemma subscribers_off_witness :
  subscribers "job" (off "job" (UserFn 0)
                       (on "job" (UserFn 1) (on "job" (UserFn 0) sampleBus)))
  = Some [UserFn 1].
Proof.
  rewrite (subscribers_off "job" (UserFn 0)
             (on "job" (UserFn 1) (on "job" (UserFn 0) sampleBus))).
  - reflexivity.
  - apply tableInv_on, tableInv_on, tableInv_constructor.
  - apply setsNoDup_on, setsNoDup_on, setsNoDup_constructor.
Defined.

Lemma subscribers_off_other_witness :
  subscribers "log" (off "job" (UserFn 1)
                       (on "job" (UserFn 1) (on "log" (UserFn 0) sampleBus)))
  = subscribers "log" (on "job" (UserFn 1) (on "log" (UserFn 0) sampleBus)).
Proof.
  apply (subscribers_off_other "job" "log" (UserFn 1)
           (on "job" (UserFn 1) (on "log" (UserFn 0) sampleBus))).
  - apply tableInv_on, tableInv_on, tableInv_constructor.
  - discriminate.
Defined.

Lemma off_unknown_handler_witness :
  off "job" (UserFn 7) (on "job" (UserFn 0) sampleBus) = on "job" (UserFn 0) sampleBus.
Proof.
  apply (off_unknown_handler "job" (UserFn 7) (on "job" (UserFn 0) sampleBus)).
  - apply tableInv_on, tableInv_constructor.
  - cbn. intros H. apply list_elem_of_singleton in H. discriminate.
Defined.

Lemma handleMessage_all_return_witness :
  let b := on "job" (UserFn 2) (on "job" (UserFn 0) sampleBus) in
  ∃ b', handleMessage sampleThrows (sampleMessage "job") b = Some (b', Returned)
        ∧ calls b' = [(0%nat, sampleMessage "job"); (2%nat, sampleMessage "job")].
Proof.
  intros b.
  apply (handleMessage_all_return sampleThrows (sampleMessage "job") b).
  repeat constructor.
Defined.

Lemma delivery_only_removes_once_wrappers_witness :
  let b := on "job" (UserFn 2) (once "job" 0 sampleBus) in
  ∃ b', handleMessage sampleThrows (sampleMessage "job") b = Some (b', Returned)
        ∧ default [] (subscribers "job" b') `sublist_of` default [] (subscribers "job" b)
        ∧ UserFn 2 ∈ default [] (subscribers "job" b').
Proof.
  intros b. eexists. split; [vm_compute; reflexivity|].
  match goal with |- default [] (subscribers _ ?b') `sublist_of` _ ∧ _ =>
    destruct (delivery_only_removes_once_wrappers sampleThrows (sampleMessage "job")
                b b' Returned "job") as [H1 H2] end.
  - vm_compute. reflexivity.
  - split; [exact H1|]. apply H2. apply elem_of_cons. right. apply elem_of_cons. by left.
Defined.

Lemma once_runs_and_unsubscribes_witness :
  let b := run sampleThrows [CallOn "job" 0] sampleBus in
  ∃ b',
    handleMessage sampleThrows (sampleMessage "job") (once "job" 1 b) = Some (b', Thrown)
    ∧ calls b' = [(0%nat, sampleMessage "job"); (1%nat, sampleMessage "job")]
    ∧ OnceWrapper 0 "job" 1 ∉ default [] (subscribers "job" b').
Proof.
  intros b.
  apply (once_runs_and_unsubscribes sampleThrows (onlyRedis sampleRedis) sampleUUID
           [CallOn "job" 0] 1 (sampleMessage "job")).
  repeat constructor.
Defined.

Lemma once_fires_once_witness :
  calls (run sampleThrows
           [CallOnce "job" 1; Deliver (sampleMessage "job"); Deliver (sampleMessage "job")]
           sampleBus)
  = [(1%nat, sampleMessage "job")].
Proof.
  apply (once_fires_once sampleThrows (onlyRedis sampleRedis) sampleUUID "job" 1
           [sampleMessage "job"; sampleMessage "job"]).
  repeat constructor.
Defined.

Lemma undecodable_record_acked_witness :
  EventStream.forBody sampleParse (handleMessage sampleThrows)
    ("eventbus:default:anycast", [("3-0", ["message"])])
    (anycast (streams sampleBus), sampleBus)
  = Some (EventStream.send
            (XACK "eventbus:default:anycast" "eventbus:default:group" "3-0")
            (EventStream.consoleError (anycast (streams sampleBus))),
          sampleBus).
Proof.
  apply (undecodable_record_acked sampleParse (handleMessage sampleThrows)
           (anycast (streams sampleBus)) sampleBus "eventbus:default:anycast" "3-0"
           ["message"] []).
  reflexivity.
Defined.

Lemma record_dispatched_and_acked_witness :
  let b := on "job" (UserFn 0) sampleBus in
  ∃ s' b',
    EventStream.forBody sampleParse (handleMessage sampleThrows)
      ("eventbus:default:anycast", [("3-0", ["message"; "job"])])
      (anycast (streams b), b) = Some (s', b')
    ∧ calls b' = [(0%nat, sampleMessage "job")]
    ∧ EventStream.sent s' = [XACK "eventbus:default:anycast" "eventbus:default:group" "3-0"]
    ∧ EventStream.errors s' = 0%nat.
Proof.
  intros b.
  apply (record_dispatched_and_acked sampleParse sampleThrows (anycast (streams b)) b
           "eventbus:default:anycast" "3-0" ["message"; "job"] [] (sampleMessage "job")).
  - reflexivity.
  - repeat constructor.
Defined.

Lemma stream_topology_witness :
  let p := constructor (onlyRedis sampleRedis) "0a1b-2c3d" in
  let q := constructor (onlyRedis sampleRedis) "ffff-0000" in
  EventStream.getGroupKey (anycast (streams p)) = EventStream.getGroupKey (anycast (streams q))
  ∧ EventStream.getGroupKey (broadcast (streams p))
    ≠ EventStream.getGroupKey (broadcast (streams q)).
Proof.
  intros p q.
  destruct (stream_topology (onlyRedis sampleRedis) (onlyRedis sampleRedis)
              "0a1b-2c3d" "ffff-0000" eq_refl) as (_ & H2 & _ & H4 & _).
  split; [exact H2|]. intros H. apply H4 in H. discriminate.
Defined.

Lemma unicast_reaches_target_witness :
  let p := constructor (onlyRedis sampleRedis) "0a1b-2c3d" in
  let q := constructor (onlyRedis sampleRedis) "ffff-0000" in
  emit sampleStringify "job"
    {| EventMessage.mode := Some BROADCAST; EventMessage.target := Some "ffff0000";
       EventMessage.data := None |} 7 (Resolved "7-0") p
  = (send
       (XADD (EventStream.getStreamKey (unicast (streams q))) "*" "message"
          (sampleStringify
             {| mode := UNICAST; target := Some "ffff0000"; event := "job";
                data := None; timestamp := 7; source := "0a1b2c3d" |})) p,
     Resolved "7-0").
Proof.
  intros p q.
  apply (unicast_reaches_target sampleStringify (onlyRedis sampleRedis)
           (onlyRedis sampleRedis) "0a1b-2c3d" "ffff-0000" "job" (Some BROADCAST) None 7
           (Resolved "7-0")).
  - reflexivity.
  - discriminate.
Defined.

Lemma shared_modes_reach_peers_witness :
  let p := constructor (onlyRedis sampleRedis) "0a1b-2c3d" in
  let q := constructor (onlyRedis sampleRedis) "ffff-0000" in
  emit sampleStringify "job"
    {| EventMessage.mode := Some ANYCAST; EventMessage.target := None;
       EventMessage.data := None |} 7 (Resolved "7-0") p
  = (send
       (XADD (EventStream.getStreamKey (anycast (streams q))) "*" "message"
          (sampleStringify
             {| mode := ANYCAST; target := None; event := "job";
                data := None; timestamp := 7; source := "0a1b2c3d" |})) p,
     Resolved "7-0").
Proof.
  intros p q.
  apply (shared_modes_reach_peers sampleStringify (onlyRedis sampleRedis)
           (onlyRedis sampleRedis) "0a1b-2c3d" "ffff-0000" "job" (Some ANYCAST) None 7
           (Resolved "7-0")).
  - reflexivity.
  - discriminate.
Defined.

Lemma stale_group_destroyed_after_two_probes_witness :
  let p := constructor (onlyRedis sampleRedis) "0a1b-2c3d" in
  issued p (confirmGroup "eventbus:default:broadcast" "eventbus:default:ffff0000" 0 0 p)
  = [EXISTS "eventbus:default:unicast:ffff0000";
     XGROUP_DESTROY "eventbus:default:broadcast" "eventbus:default:ffff0000"].
Proof.
  intros p.
  apply (stale_group_destroyed_after_two_probes (onlyRedis sampleRedis)
           (onlyRedis sampleRedis) "0a1b-2c3d" "ffff-0000" 0 0).
  reflexivity.
Defined.

Lemma maintainOnce_renews_every_stream_witness :
  let replies := fun _ : EventMode =>
    {| consumers := [];
       groups := [[RStr "name"; RStr "eventbus:default:ffff0000"; RStr "consumers"; RInt 1]] |} in
  XTRIM_MAXLEN "eventbus:default:unicast:0a1b2c3d" 5000
    ∈ issued sampleBus (maintainOnce replies sampleBus).1
  ∧ EXPIRE "eventbus:default:unicast:0a1b2c3d" 3600
    ∈ issued sampleBus (maintainOnce replies sampleBus).1.
Proof.
  intros replies.
  apply (maintainOnce_renews_every_stream replies sampleBus UNICAST).
  repeat constructor. by exists "eventbus:default:ffff0000".
Defined.

Lemma init_fails_when_a_connection_fails_witness :
  let answers := fun m : EventMode =>
    if decide (m = BROADCAST) then (Rejected, Resolved ()) else (Resolved (), Resolved ()) in
  let r := init (Resolved ()) answers sampleBus in
  r.2 = Thrown
  ∧ maintenanceTimer r.1 = None
  ∧ EventStream.loop (broadcast (streams r.1)) = false
  ∧ EventStream.loop (anycast (streams r.1)) = true.
Proof.
  intros answers r.
  destruct (init_fails_when_a_connection_fails answers sampleBus BROADCAST) as [_ H].
  destruct (H eq_refl) as (H1 & H2 & H3 & H4).
  split; [exact H1|]. split; [exact H2|]. split.
  - change (broadcast (streams r.1)) with (getStream BROADCAST (streams r.1)).
    unfold r. rewrite H3. reflexivity.
  - apply (H4 ANYCAST). reflexivity.
Defined.

Lemma given_options_resolved_witness :
  let o :=
    {| EventBusOptions.name := Some "";
       EventBusOptions.redis := sampleRedis;
       EventBusOptions.messageRetention := Some 0;
       EventBusOptions.streamTTL := None;
       EventBusOptions.onlyNew := Some true;
       EventBusOptions.debug := None;
       EventBusOptions.maxMessageCount := Some 0;
       EventBusOptions.role := None |} in
  let r := options (constructor o sampleUUID) in
  Options.name r = "default"
  ∧ Options.messageRetention r = 300000
  ∧ Options.maxMessageCount r = 0
  ∧ Options.onlyNew r = true.
Proof.
  intros o r.
  destruct (given_options_resolved o sampleUUID) as (H1 & H2 & H3 & H4 & _).
  split; [exact (H1 "" eq_refl)|]. split; [exact (H2 0 eq_refl)|].
  split; [exact (H3 0 eq_refl)|exact (H4 true eq_refl)].
Defined.

Lemma keyPrefix_injective_witness :
  Options.name (options (constructor (onlyRedis sampleRedis) "0a1b-2c3d"))
  = Options.name (options (constructor (onlyRedis sampleRedis) "ffff-0000")).
Proof.
  apply (keyPrefix_injective (onlyRedis sampleRedis) (onlyRedis sampleRedis)
           "0a1b-2c3d" "ffff-0000").
  reflexivity.
Defined.

Lemma whileBody_commands_witness :
  let b := on "job" (UserFn 1) sampleBus in
  ∃ s' b',
    EventStream.whileBody sampleParse (handleMessage sampleThrows)
      (Some [("eventbus:default:anycast", [("3-0", ["message"; "job"])]);
             ("eventbus:default:anycast", [])])
      (anycast (streams b), b) = Some (s', b')
    ∧ EventStream.sent s'
      = [XREADGROUP "eventbus:default:group" "0a1b2c3d" 1 1000 "eventbus:default:anycast" ">";
         XACK "eventbus:default:anycast" "eventbus:default:group" "3-0"].
Proof.
  intros b.
  destruct (EventStream.whileBody sampleParse (handleMessage sampleThrows)
              (Some [("eventbus:default:anycast", [("3-0", ["message"; "job"])]);
                     ("eventbus:default:anycast", [])])
              (anycast (streams b), b)) as [[s' b']|] eqn:Hrun;
    [|vm_compute in Hrun; discriminate].
  exists s', b'. split; [reflexivity|].
  rewrite (whileBody_commands sampleParse sampleThrows _ _ s' b b' Hrun). reflexivity.
Defined.

(** C5 (the code's behaviour): a consumer of the anycast group that the
    store reports idle for 4000 ms, under the default [streamTTL] of 3600
    seconds: its idle time does not exceed the [streamTTL], and the
    maintenance issues [XGROUP DELCONSUMER] for it. *)
Theorem prune_deletes_consumer_idle_four_seconds :
  let idle := {| cname := "c1"; cpending := 0; cidle := 4000; cextra := [] |} in
  let r := {| consumers := [consumerEntry idle]; groups := [] |} in
  Options.streamTTL (options sampleBus) = 3600
  ∧ ¬ idleExceedsTTL (cidle idle) (Options.streamTTL (options sampleBus))
  ∧ XGROUP_DELCONSUMER "eventbus:default:anycast" "eventbus:default:group" (Some (RStr "c1"))
    ∈ issued sampleBus (maintainStream ANYCAST r sampleBus).1.
Proof.
  split; [reflexivity|]. split.
  - unfold idleExceedsTTL. cbn. lia.
  - apply (bool_decide_unpack _). vm_compute. reflexivity.
Qed.

(** At the closed sample instance, with the rejection the client gives. *)
Lemma close_refuses_emit_only_witness :
  (emit sampleStringify "job"
     {| EventMessage.mode := None; EventMessage.target := None; EventMessage.data := None |}
     7 Rejected (close sampleBus)).2 = Rejected.
Proof.
  destruct (close_refuses_emit_only sampleStringify "job"
              {| EventMessage.mode := None; EventMessage.target := None;
                 EventMessage.data := None |}
              7 Rejected "job" (UserFn 0) 0 sampleBus) as [H _].
  apply H. intros _. reflexivity.
Defined.
